(* ===================================================================== *)
(* ReachInbox: the indexing pipeline (ai.service.ts, notification.service.ts,
   elasticsearch.service.ts), the per-account IMAP supervisor
   (imap.service.ts) and the startup function (index.ts), as a shallow
   embedding, with the properties the specification states about them.    *)
(* ===================================================================== *)

From Stdlib Require Import ZArith Lia.
From stdpp Require Import base option list strings pretty gmap fin_maps.

Local Open Scope string_scope.

(* --------------------------------------------------------------------- *)
(* JavaScript basics shared by all services                               *)
(* --------------------------------------------------------------------- *)

Module Js.

(** An [Error] object; only its [message] is ever read by the code. *)
Record Error := mkError { message : string }.

(** Truthiness of a string value: the empty string is falsy. *)
Definition truthy (s : string) : bool :=
  match s with
  | EmptyString => false
  | String _ _ => true
  end.

(** [x || d] for an optional string [x] (undefined and the empty string are falsy). *)
Definition or_else (x : option string) (d : string) : string :=
  match x with
  | Some s => if truthy s then s else d
  | None => d
  end.

(** An optional string used as a condition ([if (x)], [x ? a : b]). *)
Definition truthy_opt (x : option string) : bool :=
  match x with
  | Some s => truthy s
  | None => false
  end.

(** How a template literal renders a possibly undefined string. *)
Definition show (x : option string) : string :=
  match x with
  | Some s => s
  | None => "undefined"
  end.

(** A possibly undefined string between double quotes, as the log lines
    print it. *)
Definition quoted (x : option string) : string :=
  let dq := String (Ascii.ascii_of_nat 34) EmptyString in
  dq +:+ show x +:+ dq.

(** [xs.join(sep)] *)
Fixpoint join (sep : string) (xs : list string) : string :=
  match xs with
  | [] => EmptyString
  | [x] => x
  | x :: rest => x +:+ sep +:+ join sep rest
  end.

End Js.

(* --------------------------------------------------------------------- *)
(* Data model                                                             *)
(* --------------------------------------------------------------------- *)

(** mailparser's [AddressObject]; the code reads its [text] only. *)
Record AddressObject := mkAddress { text : string }.

(** [ParsedMail.to] is one address object or an array of them. *)
Inductive ToField :=
| ToOne (a : AddressObject)
| ToMany (l : list AddressObject).

(** The fields of mailparser's [ParsedMail] the pipeline reads. A header
    that the source omits is [None] (undefined); [html] is [None] when
    mailparser reports [false]. Dates are milliseconds since the epoch. *)
Record ParsedMail := mkParsedMail {
  pm_messageId : option string;
  pm_from : option AddressObject;
  pm_to : option ToField;
  pm_subject : option string;
  pm_text : option string;
  pm_html : option string;
  pm_date : option Z
}.

(** elasticsearch.service.ts, [EmailDocument]. *)
Record EmailDocument := mkEmailDocument {
  accountId : string;
  messageId : option string;
  from : option string;
  to : option string;
  subject : option string;
  body : option string;
  htmlBody : option string;
  receivedAt : Z;
  aiCategory : option string
}.

(* --------------------------------------------------------------------- *)
(* The world outside the process                                          *)
(* --------------------------------------------------------------------- *)

(** What an HTTP peer does with one request. *)
Inductive Peer (A : Type) :=
| Replies (latency : Z) (data : A)
| Fails (e : Js.Error).
Arguments Replies {A} latency data.
Arguments Fails {A} e.

(** The body of the AI service's answer to /categorize: [data] may be
    missing altogether, and so may its [category]. *)
Record CategorizeData := mkCategorizeData { category : option string }.

(** Outbound requests, in the order they are issued. *)
Inductive Call :=
| AiCategorize (subject body : string) (timeout : Z)
| EsIndex (id : option string) (document : EmailDocument)
| SlackSend (fromValue subjectValue : string)
| WebhookPost (url : string) (document : EmailDocument).

Inductive LogLine :=
| Log (line : string)
| Warn (line : string)
| LogError (line : string) (detail : string).

(** The behaviour of the collaborators during one [indexEmail] call: the
    clock, the AI service, whether the store rejects the write (and the id
    it generates for a write without one), whether each notification sink
    rejects. *)
Record Env := mkEnv {
  now : Z;
  ai : Peer (option CategorizeData);
  es_index : option Js.Error;
  es_auto_id : string;
  slack : option Js.Error;
  webhook : option Js.Error
}.

(** Process-wide state the pipeline reads and writes: the documents held
    by the store, the console and the requests sent so far. *)
Record Sys := mkSys {
  docs : gmap string EmailDocument;
  console : list LogLine;
  calls : list Call
}.

(* --------------------------------------------------------------------- *)
(* A state-and-exception monad for async functions                        *)
(* --------------------------------------------------------------------- *)

Inductive Completion (A : Type) :=
| Return (a : A)
| Throw (e : Js.Error).
Arguments Return {A} a.
Arguments Throw {A} e.

Definition Eff (A : Type) : Type := Sys -> Completion A * Sys.

Definition ret {A} (a : A) : Eff A := fun s => (Return a, s).

Definition throw {A} (e : Js.Error) : Eff A := fun s => (Throw e, s).

Definition bind {A B} (m : Eff A) (k : A -> Eff B) : Eff B :=
  fun s =>
    match m s with
    | (Return a, s') => k a s'
    | (Throw e, s') => (Throw e, s')
    end.

(** [try { m } catch (e) { h e }] *)
Definition try_catch {A} (m : Eff A) (h : Js.Error -> Eff A) : Eff A :=
  fun s =>
    match m s with
    | (Return a, s') => (Return a, s')
    | (Throw e, s') => h e s'
    end.

Notation "'let*' x ':=' m 'in' k" := (bind m (fun x => k))
  (at level 10, x name, m at level 100, k at level 200).
Notation "'run' m 'then' k" := (bind m (fun _ => k))
  (at level 10, m at level 100, k at level 200).

Definition console_log (l : LogLine) : Eff unit :=
  fun s => (Return tt, mkSys (docs s) (console s ++ [l]) (calls s)).

Definition record_call (c : Call) : Eff unit :=
  fun s => (Return tt, mkSys (docs s) (console s) (calls s ++ [c])).

(** An axios request with a [timeout] option: the promise rejects when the
    peer fails or has not answered within the timeout. *)
Definition axios_post {A} (peer : Peer A) (timeout : option Z) : Eff A :=
  match peer with
  | Fails e => throw e
  | Replies latency data =>
      match timeout with
      | Some t =>
          if (t <? latency)%Z
          then throw (Js.mkError "timeout exceeded")
          else ret data
      | None => ret data
      end
  end.

(* --------------------------------------------------------------------- *)
(* ai.service.ts                                                          *)
(* --------------------------------------------------------------------- *)

Module AIService.

Definition fallbackCategory : string := "General".

(** [data?.category] *)
Definition category_of (data : option CategorizeData) : option string :=
  match data with
  | Some d => category d
  | None => None
  end.

Definition categorizeEmail (env : Env) (subject body : string) : Eff string :=
  let safeSubject := Js.or_else (Some subject) "No Subject" in
  let safeBody := Js.or_else (Some body) EmptyString in
  try_catch
    (run record_call (AiCategorize safeSubject safeBody 10000) then
     let* data := axios_post (ai env) (Some 10000%Z) in
     ret (Js.or_else (category_of data) fallbackCategory))
    (fun error =>
       run console_log (LogError "[AI Service] Categorization failed:" (Js.message error)) then
       ret fallbackCategory).

End AIService.

(* --------------------------------------------------------------------- *)
(* notification.service.ts                                                *)
(* --------------------------------------------------------------------- *)

Module NotificationService.

(** The two sinks; each is present only when its URL was configured. *)
Record t := mk {
  slackWebhook : option string;
  webhookSiteUrl : option string
}.

(** The constructor, from the two environment variables. *)
Definition new (SLACK_WEBHOOK_URL WEBHOOK_SITE_URL : option string) : t * list LogLine :=
  let slackUrl := SLACK_WEBHOOK_URL in
  let '(hook, w1) :=
    if Js.truthy_opt slackUrl
    then (slackUrl, [])
    else (None, [Warn "[Slack] SLACK_WEBHOOK_URL not set. Slack notifications disabled."]) in
  let w2 :=
    if Js.truthy_opt WEBHOOK_SITE_URL
    then []
    else [Warn "[Webhook] WEBHOOK_SITE_URL not set. External webhooks disabled."] in
  (mk hook WEBHOOK_SITE_URL, (w1 ++ w2)%list).

(** One request to a sink that resolves or rejects as the environment says. *)
Definition send (c : Call) (outcome : option Js.Error) : Eff unit :=
  run record_call c then
  match outcome with
  | Some e => throw e
  | None => ret tt
  end.

Definition sendInterestNotification (svc : t) (env : Env) (email : EmailDocument) : Eff unit :=
  if negb (bool_decide (aiCategory email = Some "Interested"))
  then ret tt
  else
    run console_log (Log ("[Notification] 'Interested' email detected: " +:+ Js.quoted (subject email))) then
    run (match slackWebhook svc with
         | Some _ =>
             try_catch
               (run send (SlackSend (Js.or_else (from email) "Unknown")
                                    (Js.or_else (subject email) "No Subject"))
                         (slack env) then
                console_log (Log "[Slack] Notification sent."))
               (fun error =>
                  console_log (LogError "[Slack] Error sending notification:" (Js.message error)))
         | None => ret tt
         end) then
    match webhookSiteUrl svc with
    | Some url =>
        if Js.truthy url
        then
          try_catch
            (run send (WebhookPost url email) (webhook env) then
             console_log (Log "[Webhook] Webhook.site triggered."))
            (fun error =>
               console_log (LogError "[Webhook] Error triggering webhook.site:" (Js.message error)))
        else ret tt
    | None => ret tt
    end.

End NotificationService.

(* --------------------------------------------------------------------- *)
(* elasticsearch.service.ts                                               *)
(* --------------------------------------------------------------------- *)

Module ElasticsearchService.

(** [client.index({ index, id, document })]: the store writes the document
    under [id], replacing what was there, or under an id of its own when
    none is given; a rejected request writes nothing. *)
Definition client_index (env : Env) (id : option string) (document : EmailDocument) : Eff unit :=
  run record_call (EsIndex id document) then
  match es_index env with
  | Some e => throw e
  | None =>
      fun s =>
        let key := match id with Some k => k | None => es_auto_id env end in
        (Return tt, mkSys (<[key := document]> (docs s)) (console s) (calls s))
  end.

(** [Array.isArray(email.to) ? email.to.map(addr => addr.text).join(', ') : email.to?.text] *)
Definition toText (email : ParsedMail) : option string :=
  match pm_to email with
  | Some (ToMany l) => Some (Js.join ", " (map text l))
  | Some (ToOne a) => Some (text a)
  | None => None
  end.

(** Step 2 of [indexEmail]: the document built from the mail, the
    category and the clock. *)
Definition makeDocument (env : Env) (email : ParsedMail) (accountId : string)
    (category : string) : EmailDocument :=
  {| accountId := accountId;
     messageId := pm_messageId email;
     from := text <$> pm_from email;
     to := toText email;
     subject := pm_subject email;
     body := pm_text email;
     htmlBody := if Js.truthy_opt (pm_html email) then pm_html email else None;
     receivedAt := match pm_date email with Some d => d | None => now env end;
     aiCategory := Some category |}.

Definition indexEmail (svc : NotificationService.t) (env : Env)
    (email : ParsedMail) (accountId : string) : Eff unit :=
  try_catch
    (let emailBody := Js.or_else (pm_text email) EmptyString in
     let emailSubject := Js.or_else (pm_subject email) "No Subject" in
     let* category := AIService.categorizeEmail env emailSubject emailBody in
     let document := makeDocument env email accountId category in
     run client_index env (messageId document) document then
     run console_log (Log ("[Elasticsearch] Indexed email: [" +:+ category +:+ "] "
                           +:+ Js.quoted (subject document))) then
     NotificationService.sendInterestNotification svc env document)
    (fun error =>
       console_log (LogError "[Elasticsearch] Error indexing email:" (Js.message error))).

End ElasticsearchService.

(* --------------------------------------------------------------------- *)
(* imap.service.ts: the handoff                                           *)
(* --------------------------------------------------------------------- *)

(** [processEmail]: logs, starts [indexEmail] and attaches a rejection
    handler to its promise; nothing is awaited or rethrown. *)
Definition processEmail (svc : NotificationService.t) (env : Env)
    (email : ParsedMail) (accountId : string) : Eff unit :=
  run console_log (Log ("[" +:+ accountId +:+ "] Processing new email: " +:+ Js.quoted (pm_subject email))) then
  try_catch
    (ElasticsearchService.indexEmail svc env email accountId)
    (fun err =>
       console_log (LogError ("[" +:+ accountId +:+ "] Failed to index email:") (Js.message err))).

(* --------------------------------------------------------------------- *)
(* The Date methods fetchInitialEmails calls (ECMA-262, 21.4.1)           *)
(* --------------------------------------------------------------------- *)

Module JsDate.

Local Open Scope Z_scope.

Definition msPerDay : Z := 86400000.

Definition Day (t : Z) : Z := t / msPerDay.

Definition TimeWithinDay (t : Z) : Z := t mod msPerDay.

Definition DaysInYear (y : Z) : Z :=
  if negb (y mod 4 =? 0) then 365
  else if negb (y mod 100 =? 0) then 366
  else if negb (y mod 400 =? 0) then 365
  else 366.

Definition DayFromYear (y : Z) : Z :=
  365 * (y - 1970) + (y - 1969) / 4 - (y - 1901) / 100 + (y - 1601) / 400.

(** The largest year whose first day is not after [day]: an estimate
    from the shortest year length, then corrected downwards and upwards. *)
Fixpoint year_down (fuel : nat) (y day : Z) : Z :=
  match fuel with
  | O => y
  | S fuel' => if day <? DayFromYear y then year_down fuel' (y - 1) day else y
  end.

Fixpoint year_up (fuel : nat) (y day : Z) : Z :=
  match fuel with
  | O => y
  | S fuel' => if DayFromYear (y + 1) <=? day then year_up fuel' (y + 1) day else y
  end.

Definition YearFromTime (t : Z) : Z :=
  let day := Day t in
  year_up 512 (year_down 512 (1970 + day / 365) day) day.

Definition InLeapYear (t : Z) : bool := DaysInYear (YearFromTime t) =? 366.

Definition DayWithinYear (t : Z) : Z := Day t - DayFromYear (YearFromTime t).

(** The day within the year on which month [m] (0 = January) starts. *)
Definition monthStart (m : Z) (leap : bool) : Z :=
  let l := if leap then 1 else 0 in
  match m with
  | 0 => 0
  | 1 => 31
  | 2 => 59 + l
  | 3 => 90 + l
  | 4 => 120 + l
  | 5 => 151 + l
  | 6 => 181 + l
  | 7 => 212 + l
  | 8 => 243 + l
  | 9 => 273 + l
  | 10 => 304 + l
  | _ => 334 + l
  end.

Definition MonthFromTime (t : Z) : Z :=
  let d := DayWithinYear t in
  let leap := InLeapYear t in
  if d <? monthStart 1 leap then 0
  else if d <? monthStart 2 leap then 1
  else if d <? monthStart 3 leap then 2
  else if d <? monthStart 4 leap then 3
  else if d <? monthStart 5 leap then 4
  else if d <? monthStart 6 leap then 5
  else if d <? monthStart 7 leap then 6
  else if d <? monthStart 8 leap then 7
  else if d <? monthStart 9 leap then 8
  else if d <? monthStart 10 leap then 9
  else if d <? monthStart 11 leap then 10
  else 11.

Definition DateFromTime (t : Z) : Z :=
  DayWithinYear t - monthStart (MonthFromTime t) (InLeapYear t) + 1.

(** [MakeDay(year, month, date)]: the day number of the first of the
    month, plus [date - 1]. *)
Definition MakeDay (year month date : Z) : Z :=
  let ym := year + month / 12 in
  let mn := month mod 12 in
  DayFromYear ym + monthStart mn (DaysInYear ym =? 366) + date - 1.

Definition MakeDate (day time : Z) : Z := day * msPerDay + time.

(** The time zone of the host as the runtime knows it: the offset from
    UTC in force at an instant, and the offset by which a local time value
    is read back (for a local time that occurs twice or not at all around a
    change of offset, the offset in force before the change). *)
Record Zone := mkZone {
  offset_at : Z -> Z;
  offset_of_local : Z -> Z
}.

(** [LocalTime(t)]: the instant shifted by the offset in force at it. *)
Definition LocalTime (tza : Zone) (t : Z) : Z := t + offset_at tza t.

(** [UTC(t)]: the local time value shifted back by the offset it is read by. *)
Definition UTC (tza : Zone) (t : Z) : Z := t - offset_of_local tza t.

(** A zone whose offset never changes. *)
Definition fixed (offset : Z) : Zone := mkZone (fun _ => offset) (fun _ => offset).

Definition utc : Zone := fixed 0.

(** America/New_York in 2026: five hours behind UTC, four from 8 March
    07:00 UTC (02:00 local, read as 03:00) to 1 November 06:00 UTC (02:00
    local, read as 01:00). *)
Definition new_york_2026 : Zone :=
  mkZone
    (fun t => if t <? 1772953200000 then -18000000
              else if t <? 1793512800000 then -14400000
              else -18000000)
    (fun local => if local <? 1772938800000 then -18000000
                  else if local <? 1793498400000 then -14400000
                  else -18000000).

(** [d.getDate()] *)
Definition getDate (tza : Zone) (t : Z) : Z := DateFromTime (LocalTime tza t).

(** [d.setDate(dt)]: the new time value of [d]. *)
Definition setDate (tza : Zone) (t dt : Z) : Z :=
  let lt := LocalTime tza t in
  let newDate :=
    MakeDate (MakeDay (YearFromTime lt) (MonthFromTime lt) dt) (TimeWithinDay lt) in
  UTC tza newDate.

Definition digit (d : Z) : string :=
  String (Ascii.ascii_of_nat (48 + Z.to_nat d)) EmptyString.

(** The last [width] decimal digits of [n], zero-padded. *)
Fixpoint pad (width : nat) (n : Z) : string :=
  match width with
  | O => EmptyString
  | S w => pad w (n / 10) +:+ digit (n mod 10)
  end.

(** The year as [toISOString] prints it: four digits, or a sign and six. *)
Definition isoYear (y : Z) : string :=
  if (0 <=? y) && (y <=? 9999) then pad 4 y
  else (if y <? 0 then "-" else "+") +:+ pad 6 (Z.abs y).

(** [d.toISOString().split('T')[0]]: everything before the first T. *)
Definition isoDate (t : Z) : string :=
  isoYear (YearFromTime t) +:+ "-" +:+ pad 2 (MonthFromTime t + 1)
    +:+ "-" +:+ pad 2 (DateFromTime t).

End JsDate.

(* --------------------------------------------------------------------- *)
(* imap.service.ts: the per-account supervisor                            *)
(* --------------------------------------------------------------------- *)

Module ImapService.

(** [IAccountConfig]: the connection settings are passed to node-imap
    untouched; the service itself reads the [id] only. *)
Record IAccountConfig := mkAccount { id : string }.

(** node-imap's [imap.state]. *)
Inductive ConnState := disconnected | connected | authenticated.

Global Instance ConnState_eq_dec : EqDecision ConnState.
Proof. solve_decision. Defined.

Inductive Criterion :=
| SINCE (date : string)
| UNSEEN.

(** The options object of [imap.fetch]; [markSeen] may be left out. *)
Record FetchOptions := mkFetchOptions {
  bodies : string;
  markSeen : option bool
}.

(** Commands the service sends to the connection. *)
Inductive Command :=
| Connect
| OpenBox (name : string) (readOnly : bool)
| Search (criteria : list Criterion)
| Fetch (uids : list N) (options : FetchOptions)
| Noop.

(** Everything a handler does that is visible outside the service. *)
Inductive Effect :=
| Cmd (c : Command)
| Console (l : LogLine)
| Handoff (email : ParsedMail) (accountId : string)
| Uncaught (e : Js.Error).

(** Which of the two fetches a message belongs to. *)
Inductive Phase := Initial | Live.

(** What the connection, the parser and the timers call back with. *)
Inductive Event :=
| Connected
| Ready
| Error (err : Js.Error)
| Close
| Mail (numNewMsgs : N)
| OpenBoxDone (err : option Js.Error)
| SearchSinceDone (err : option Js.Error) (uids : list N)
| SearchUnseenDone (err : option Js.Error) (uids : list N)
| Parsed (phase : Phase) (err : option Js.Error) (parsedMail : option ParsedMail)
| FetchError (phase : Phase) (err : Js.Error)
| FetchEnd (phase : Phase)
| IntervalFired (timer : nat)
| TimeoutFired (timer : nat).

(** The service object together with what the runtime holds for it:
    the listeners attached to [imap] (how many of each), the connection's
    state, and the timers that are armed (identifier and delay). *)
Record t := mk {
  accountConfig : IAccountConfig;
  imap_state : ConnState;
  keepAliveInterval : option nat;
  error_listeners : nat;
  close_listeners : nat;
  ready_once_listeners : nat;
  mail_listeners : nat;
  intervals : list (nat * Z);
  timeouts : list (nat * Z);
  next_timer : nat;
  halted : bool
}.

Definition Handler : Type := t -> t * list Effect.

Definition seq (h1 h2 : Handler) : Handler :=
  fun s =>
    let '(s1, e1) := h1 s in
    if halted s1 then (s1, e1)
    else let '(s2, e2) := h2 s1 in (s2, (e1 ++ e2)%list).

Definition emit (e : Effect) : Handler := fun s => (s, [e]).

Definition skip : Handler := fun s => (s, []).

Fixpoint times (n : nat) (h : Handler) : Handler :=
  match n with
  | O => skip
  | S n' => seq h (times n' h)
  end.

Definition tag (s : t) : string := "[" +:+ id (accountConfig s) +:+ "] ".

Definition log (f : t -> string) : Handler :=
  fun s => (s, [Console (Log (f s))]).

Definition log_error (f : t -> string) (e : Js.Error) : Handler :=
  fun s => (s, [Console (LogError (f s) (Js.message e))]).

Definition set_imap_state (st : ConnState) : Handler :=
  fun s => (mk (accountConfig s) st (keepAliveInterval s) (error_listeners s)
               (close_listeners s) (ready_once_listeners s) (mail_listeners s)
               (intervals s) (timeouts s) (next_timer s) (halted s), []).

(** [clearInterval(id)] *)
Definition clearInterval (timer : nat) : Handler :=
  fun s => (mk (accountConfig s) (imap_state s) (keepAliveInterval s) (error_listeners s)
               (close_listeners s) (ready_once_listeners s) (mail_listeners s)
               (filter (fun p => fst p ≠ timer) (intervals s))
               (timeouts s) (next_timer s) (halted s), []).

(** [this.keepAliveInterval = setInterval(..., delay)] *)
Definition setKeepAliveInterval (delay : Z) : Handler :=
  fun s => (mk (accountConfig s) (imap_state s) (Some (next_timer s)) (error_listeners s)
               (close_listeners s) (ready_once_listeners s) (mail_listeners s)
               ((next_timer s, delay) :: intervals s)
               (timeouts s) (S (next_timer s)) (halted s), []).

(** [setTimeout(..., delay)] *)
Definition setTimeout (delay : Z) : Handler :=
  fun s => (mk (accountConfig s) (imap_state s) (keepAliveInterval s) (error_listeners s)
               (close_listeners s) (ready_once_listeners s) (mail_listeners s)
               (intervals s)
               ((next_timer s, delay) :: timeouts s) (S (next_timer s)) (halted s), []).

(** A one-shot timer is disarmed when it fires. *)
Definition clearTimeout (timer : nat) : Handler :=
  fun s => (mk (accountConfig s) (imap_state s) (keepAliveInterval s) (error_listeners s)
               (close_listeners s) (ready_once_listeners s) (mail_listeners s)
               (intervals s)
               (filter (fun p => fst p ≠ timer) (timeouts s)) (next_timer s) (halted s), []).

(** [imap.on('mail', ...)] *)
Definition add_mail_listener : Handler :=
  fun s => (mk (accountConfig s) (imap_state s) (keepAliveInterval s) (error_listeners s)
               (close_listeners s) (ready_once_listeners s) (S (mail_listeners s))
               (intervals s) (timeouts s) (next_timer s) (halted s), []).

(** The once-listeners are detached as the event is emitted. *)
Definition take_ready_listeners : Handler :=
  fun s => (mk (accountConfig s) (imap_state s) (keepAliveInterval s) (error_listeners s)
               (close_listeners s) 0 (mail_listeners s)
               (intervals s) (timeouts s) (next_timer s) (halted s), []).

(** An exception nobody catches ends the process. *)
Definition uncaught (e : Js.Error) : Handler :=
  fun s => (mk (accountConfig s) (imap_state s) (keepAliveInterval s) (error_listeners s)
               (close_listeners s) (ready_once_listeners s) (mail_listeners s)
               (intervals s) (timeouts s) (next_timer s) true, [Uncaught e]).

(** The constructor. *)
Definition new (config : IAccountConfig) : t :=
  mk config disconnected None 0 0 0 0 [] [] 0 false.

(** [startSync]: attaches the error, close and (once) ready listeners and connects. *)
Definition startSync : Handler :=
  fun s =>
    let s' := mk (accountConfig s) (imap_state s) (keepAliveInterval s)
                 (S (error_listeners s)) (S (close_listeners s))
                 (S (ready_once_listeners s)) (mail_listeners s)
                 (intervals s) (timeouts s) (next_timer s) (halted s) in
    (s', [Console (Log (tag s +:+ "Connecting to IMAP server...")); Cmd Connect]).

(** [if (this.keepAliveInterval) clearInterval(this.keepAliveInterval)] *)
Definition clearKeepAlive : Handler :=
  fun s => match keepAliveInterval s with
           | Some timer => clearInterval timer s
           | None => skip s
           end.

(** The keep-alive callback handed to [setInterval]. *)
Definition keepAliveTick : Handler :=
  fun s =>
    if decide (imap_state s = authenticated)
    then seq (log (fun s => tag s +:+ "Sending keep-alive NOOP.")) (emit (Cmd Noop)) s
    else skip s.

(** [fetchInitialEmails], up to the search it issues. [tza] is the time
    zone of the host, [now] the value of [new Date()]. *)
Definition fetchInitialEmails (tza : JsDate.Zone) (now : Z) : Handler :=
  let thirtyDaysAgo := JsDate.setDate tza now (JsDate.getDate tza now - 1) in
  let searchDate := JsDate.isoDate thirtyDaysAgo in
  emit (Cmd (Search [SINCE searchDate])).

(** The callback of the search issued by [fetchInitialEmails]. *)
Definition onSearchSince (err : option Js.Error) (uids : list N) : Handler :=
  match err with
  | Some e => log_error (fun s => tag s +:+ "Error searching emails:") e
  | None =>
      if decide (length uids = 0)
      then log (fun s => tag s +:+ "No new emails in the last 30 days.")
      else
        seq (log (fun s => tag s +:+ "Found " +:+ pretty (length uids) +:+ " emails to fetch."))
            (fun s =>
               if decide (imap_state s ≠ authenticated)
               then log_error (fun s => tag s +:+ "Not authenticated. Fetch aborted. Reconnect will handle.")
                              (Js.mkError EmptyString) s
               else emit (Cmd (Fetch uids (mkFetchOptions EmptyString None))) s)
  end.

(** [listenForNewEmails] *)
Definition listenForNewEmails : Handler :=
  seq (log (fun s => tag s +:+ "Entering IDLE mode for real-time updates."))
      add_mail_listener.

(** The 'mail' listener. *)
Definition onMail (numNewMsgs : N) : Handler :=
  seq (log (fun s => tag s +:+ "New mail event! You have " +:+ pretty numNewMsgs +:+ " new message(s)."))
      (fun s =>
         if decide (imap_state s ≠ authenticated)
         then log_error (fun s => tag s +:+ "Not authenticated. Search aborted. Reconnect will handle.")
                        (Js.mkError EmptyString) s
         else emit (Cmd (Search [UNSEEN])) s).

(** The callback of the search issued by the 'mail' listener. *)
Definition onSearchUnseen (err : option Js.Error) (uids : list N) : Handler :=
  match err with
  | Some e => log_error (fun s => tag s +:+ "Error searching for unseen emails:") e
  | None =>
      if decide (length uids = 0)
      then skip
      else emit (Cmd (Fetch uids (mkFetchOptions EmptyString (Some true))))
  end.

(** The [simpleParser] callback for one message body, in either fetch. *)
Definition onParsed (phase : Phase) (err : option Js.Error)
    (parsedMail : option ParsedMail) : Handler :=
  match err with
  | Some e =>
      log_error (fun s => tag s +:+ match phase with
                                    | Initial => "Error parsing email:"
                                    | Live => "Error parsing new email:"
                                    end) e
  | None =>
      match parsedMail with
      | Some mail => fun s => (s, [Handoff mail (id (accountConfig s))])
      | None => skip
      end
  end.

Definition onFetchError (phase : Phase) (err : Js.Error) : Handler :=
  log_error (fun s => tag s +:+ match phase with
                                | Initial => "Fetch error:"
                                | Live => "New mail fetch error:"
                                end) err.

Definition onFetchEnd (phase : Phase) : Handler :=
  log (fun s => tag s +:+ match phase with
                          | Initial => "Finished fetching initial emails."
                          | Live => "Finished fetching new email(s)."
                          end).

(** [onReady], up to the [openBox] it issues. *)
Definition onReady : Handler :=
  seq (log (fun s => tag s +:+ "Successfully connected!"))
      (emit (Cmd (OpenBox "INBOX" false))).

(** The callback of [openBox]. *)
Definition onOpenBox (tza : JsDate.Zone) (now : Z) (err : option Js.Error) : Handler :=
  match err with
  | Some e => uncaught e
  | None =>
      seq (log (fun s => tag s +:+ "INBOX opened. Starting initial fetch..."))
     (seq (fetchInitialEmails tza now)
     (seq listenForNewEmails
     (seq clearKeepAlive
          (setKeepAliveInterval 300000))))
  end.

(** The 'error' listener. *)
Definition onError (err : Js.Error) : Handler :=
  log_error (fun s => tag s +:+ "IMAP Error:") err.

(** The 'close' listener. *)
Definition onClose : Handler :=
  seq (log (fun s => tag s +:+ "Connection closed."))
 (seq clearKeepAlive
 (seq (log (fun s => tag s +:+ "Reconnecting in 10 seconds..."))
      (setTimeout 10000))).

(** The callback handed to [setTimeout] by the 'close' listener. *)
Definition onReconnect : Handler :=
  seq (log (fun s => tag s +:+ "Attempting to reconnect..."))
      (emit (Cmd Connect)).

Definition armed (timer : nat) (timers : list (nat * Z)) : bool :=
  bool_decide (timer ∈ map fst timers).

(** One turn of the event loop: the connection updates its state and
    emits the event to the listeners attached at that moment, a callback
    is invoked, or an armed timer fires. *)
Definition dispatch (tza : JsDate.Zone) (now : Z) (ev : Event) : Handler :=
  match ev with
  | Connected => set_imap_state connected
  | Ready =>
      seq (set_imap_state authenticated)
          (fun s => seq take_ready_listeners (times (ready_once_listeners s) onReady) s)
  | Error err => fun s => times (error_listeners s) (onError err) s
  | Close =>
      seq (set_imap_state disconnected)
          (fun s => times (close_listeners s) onClose s)
  | Mail n => fun s => times (mail_listeners s) (onMail n) s
  | OpenBoxDone err => onOpenBox tza now err
  | SearchSinceDone err uids => onSearchSince err uids
  | SearchUnseenDone err uids => onSearchUnseen err uids
  | Parsed phase err parsedMail => onParsed phase err parsedMail
  | FetchError phase err => onFetchError phase err
  | FetchEnd phase => onFetchEnd phase
  | IntervalFired timer =>
      fun s => if armed timer (intervals s) then keepAliveTick s else skip s
  | TimeoutFired timer =>
      fun s => if armed timer (timeouts s)
               then seq (clearTimeout timer) onReconnect s
               else skip s
  end.

(** Nothing runs once the process has died. *)
Definition step (tza : JsDate.Zone) (nowev : Z * Event) : Handler :=
  fun s => if halted s then (s, []) else dispatch tza (fst nowev) (snd nowev) s.

(** A sequence of timestamped events, from a given state. *)
Fixpoint run_events (tza : JsDate.Zone) (evs : list (Z * Event)) (s : t) : t * list Effect :=
  match evs with
  | [] => (s, [])
  | ev :: rest =>
      let '(s1, e1) := step tza ev s in
      let '(s2, e2) := run_events tza rest s1 in
      (s2, (e1 ++ e2)%list)
  end.

(** The commands among the effects, in order. *)
Definition commands (effs : list Effect) : list Command :=
  omap (fun e => match e with Cmd c => Some c | _ => None end) effs.

(** The messages handed to [processEmail], in order. *)
Definition handoffs (effs : list Effect) : list (ParsedMail * string) :=
  omap (fun e => match e with Handoff m a => Some (m, a) | _ => None end) effs.

(** The error lines written to the console, in order. *)
Definition errors (effs : list Effect) : list (string * string) :=
  omap (fun e => match e with Console (LogError l d) => Some (l, d) | _ => None end) effs.

End ImapService.

(* --------------------------------------------------------------------- *)
(* The mail server's read flags                                           *)
(* --------------------------------------------------------------------- *)

Module Mailbox.

Import ImapService.

(** node-imap fetches with BODY.PEEK[] unless [markSeen] is set, and
    with BODY[] when it is; the server sets the seen flag of every
    message fetched with BODY[] as it serves the fetch (RFC 3501, 6.4.5). *)
Definition marks_seen (options : FetchOptions) : bool :=
  match markSeen options with
  | Some b => b
  | None => false
  end.

(** The seen flags after the server has served one command. *)
Definition serve (c : Command) (seen : gset N) : gset N :=
  match c with
  | Fetch uids options =>
      if marks_seen options then seen ∪ list_to_set uids else seen
  | _ => seen
  end.

Definition serve_all (cs : list Command) (seen : gset N) : gset N :=
  foldl (fun acc c => serve c acc) seen cs.

End Mailbox.

(* --------------------------------------------------------------------- *)
(* index.ts: startup                                                      *)
(* --------------------------------------------------------------------- *)

Module App.

Import ImapService.

(** What [JSON.parse] returns for the accounts variable, as far as
    [startApp] looks at it: null, a value that is not an array (with its
    [length] property, if it has one), or an array whose items are account
    objects or null. *)
Inductive Json :=
| JNull
| JNotArray (length : option nat)
| JArray (items : list (option IAccountConfig)).

(** The environment of the process at startup. *)
Record World := mkWorld {
  IMAP_ACCOUNTS : option string;
  PORT : option string;
  JSON_parse : string -> Completion Json;
  es_ping : option Js.Error;
  es_indices_exists : Completion bool;
  es_indices_create : option Js.Error
}.

Inductive AppEffect :=
| AppConsole (l : LogLine)
| Exit (code : Z)
| Started (service : ImapService.t) (effects : list ImapService.Effect)
| Listen (port : string).

(** An async function of the startup path either finishes, rejects, or
    ends the process; the effects so far come with it. *)
Inductive Outcome :=
| Done
| Rejected (e : Js.Error)
| Exited.

(** [esService.initialize()] *)
Definition initialize (w : World) : list AppEffect * Outcome :=
  let failed (pre : list AppEffect) (error : Js.Error) :=
    ((pre ++ [AppConsole (LogError "[Elasticsearch] Error initializing client:" (Js.message error));
              Exit 1])%list, Exited) in
  match es_ping w with
  | Some error => failed [] error
  | None =>
      let pre := [AppConsole (Log "[Elasticsearch] Connection successful.")] in
      match es_indices_exists w with
      | Throw error => failed pre error
      | Return true =>
          ((pre ++ [AppConsole (Log ("[Elasticsearch] Index " +:+ Js.quoted (Some "emails") +:+ " already exists."))])%list, Done)
      | Return false =>
          let pre := (pre ++ [AppConsole (Log ("[Elasticsearch] Index " +:+ Js.quoted (Some "emails") +:+ " not found. Creating..."))])%list in
          match es_indices_create w with
          | Some error => failed pre error
          | None =>
              ((pre ++ [AppConsole (Log ("[Elasticsearch] Index " +:+ Js.quoted (Some "emails") +:+ " created with mapping."))])%list, Done)
          end
      end
  end.

Definition TypeError : Js.Error := Js.mkError "TypeError".

(** [accounts.forEach(accountConfig => { new ImapService(accountConfig).startSync() })]:
    a null item makes [startSync] throw when it reads the account's id;
    the services started before it stay started. *)
Fixpoint startAll (items : list (option IAccountConfig)) : list AppEffect * option Js.Error :=
  match items with
  | [] => ([], None)
  | Some accountConfig :: rest =>
      let '(service, effects) := startSync (new accountConfig) in
      let '(more, thrown) := startAll rest in
      (Started service effects :: more, thrown)
  | None :: _ => ([], Some TypeError)
  end.

Definition parseFailed (error : Js.Error) : AppEffect :=
  AppConsole (LogError "Failed to parse IMAP_ACCOUNTS." (Js.message error)).

Definition found (n : string) : AppEffect :=
  AppConsole (Log ("Found " +:+ n +:+ " account(s) to sync.")).

(** Step 2 of [startApp]: the accounts. *)
Definition startAccounts (w : World) : list AppEffect :=
  match IMAP_ACCOUNTS w with
  | Some imapAccountsConfig =>
      if Js.truthy imapAccountsConfig
      then
        match JSON_parse w imapAccountsConfig with
        | Throw error => [parseFailed error]
        | Return JNull => [parseFailed TypeError]
        | Return (JNotArray len) =>
            [found (match len with Some n => pretty n | None => "undefined" end);
             parseFailed TypeError]
        | Return (JArray items) =>
            let '(started, thrown) := startAll items in
            (found (pretty (length items)) :: started ++
               match thrown with
               | Some error => [parseFailed error]
               | None => []
               end)%list
        end
      else [AppConsole (LogError "IMAP_ACCOUNTS env not set. IMAP sync disabled." EmptyString)]
  | None => [AppConsole (LogError "IMAP_ACCOUNTS env not set. IMAP sync disabled." EmptyString)]
  end.

(** [startApp] *)
Definition startApp (w : World) : list AppEffect :=
  match initialize w with
  | (effects, Exited) => effects
  | (effects, Rejected error) =>
      (effects ++ [AppConsole (LogError "Failed to initialize Elasticsearch. Exiting."
                                        (Js.message error));
                   Exit 1])%list
  | (effects, Done) =>
      let port := Js.or_else (PORT w) "3000" in
      (effects ++ startAccounts w ++
         [Listen port;
          AppConsole (Log ("API Server running at http://localhost:" +:+ port))])%list
  end.

Definition exits (effects : list AppEffect) : bool :=
  existsb (fun e => match e with Exit _ => true | _ => false end) effects.

Definition listens (effects : list AppEffect) : bool :=
  existsb (fun e => match e with Listen _ => true | _ => false end) effects.

Definition services (effects : list AppEffect) : list ImapService.t :=
  omap (fun e => match e with Started s _ => Some s | _ => None end) effects.

End App.

(* --------------------------------------------------------------------- *)
(* Vocabulary of the statements                                           *)
(* --------------------------------------------------------------------- *)

(** The outcome of the categorization request in [env], seen from the
    caller of axios: a rejection (peer failure or timeout) or the body. *)
Definition ai_outcome (env : Env) : Completion (option CategorizeData) :=
  match ai env with
  | Fails e => Throw e
  | Replies latency data =>
      if (10000 <? latency)%Z then Throw (Js.mkError "timeout exceeded") else Return data
  end.


(** The category [categorizeEmail] hands back in [env]. *)
Definition category_in (env : Env) : string :=
  match ai_outcome env with
  | Return data => Js.or_else (AIService.category_of data) AIService.fallbackCategory
  | Throw _ => AIService.fallbackCategory
  end.

(** What [categorizeEmail] writes to the console in [env]. *)
Definition ai_console (env : Env) : list LogLine :=
  match ai_outcome env with
  | Return _ => []
  | Throw e => [LogError "[AI Service] Categorization failed:" (Js.message e)]
  end.

(** The request [indexEmail] sends to the AI service for a mail. *)
Definition ai_request (email : ParsedMail) : Call :=
  AiCategorize (Js.or_else (Some (Js.or_else (pm_subject email) "No Subject")) "No Subject")
               (Js.or_else (Some (Js.or_else (pm_text email) EmptyString)) EmptyString)
               10000.

(** The document [indexEmail] builds for a mail in [env]. *)
Definition document_in (env : Env) (email : ParsedMail) (account : string) : EmailDocument :=
  ElasticsearchService.makeDocument env email account (category_in env).

(** The key under which the store files a document in [env]. *)
Definition store_key (env : Env) (document : EmailDocument) : string :=
  match messageId document with
  | Some k => k
  | None => es_auto_id env
  end.

Definition is_notification (c : Call) : bool :=
  match c with
  | SlackSend _ _ | WebhookPost _ _ => true
  | _ => false
  end.

(** The notification requests among the calls, in order. *)
Definition notifications (cs : list Call) : list Call :=
  List.filter is_notification cs.

(** One attempt for each configured sink, Slack first. *)
Definition attempts (svc : NotificationService.t) (document : EmailDocument) : list Call :=
  (match NotificationService.slackWebhook svc with
   | Some _ => [SlackSend (Js.or_else (from document) "Unknown")
                          (Js.or_else (subject document) "No Subject")]
   | None => []
   end ++
   match NotificationService.webhookSiteUrl svc with
   | Some url => if Js.truthy url then [WebhookPost url document] else []
   | None => []
   end)%list.

(** The console lines of the notification step for an Interested document. *)
Definition notification_console (svc : NotificationService.t) (env : Env)
    (document : EmailDocument) : list LogLine :=
  ([Log ("[Notification] 'Interested' email detected: " +:+ Js.quoted (subject document))] ++
   match NotificationService.slackWebhook svc with
   | Some _ =>
       match slack env with
       | Some e => [LogError "[Slack] Error sending notification:" (Js.message e)]
       | None => [Log "[Slack] Notification sent."]
       end
   | None => []
   end ++
   match NotificationService.webhookSiteUrl svc with
   | Some url =>
       if Js.truthy url
       then match webhook env with
            | Some e => [LogError "[Webhook] Error triggering webhook.site:" (Js.message e)]
            | None => [Log "[Webhook] Webhook.site triggered."]
            end
       else []
   | None => []
   end)%list.

(** The notification requests of one [indexEmail] call that stored [document]. *)
Definition notify_calls (svc : NotificationService.t) (document : EmailDocument) : list Call :=
  if bool_decide (aiCategory document = Some "Interested") then attempts svc document else [].

Definition notify_console (svc : NotificationService.t) (env : Env)
    (document : EmailDocument) : list LogLine :=
  if bool_decide (aiCategory document = Some "Interested")
  then notification_console svc env document else [].

Definition indexed_line (document : EmailDocument) : LogLine :=
  Log ("[Elasticsearch] Indexed email: [" +:+ Js.show (aiCategory document) +:+ "] "
       +:+ Js.quoted (subject document)).

Definition is_slack (c : Call) : bool :=
  match c with SlackSend _ _ => true | _ => false end.

Definition is_webhook (c : Call) : bool :=
  match c with WebhookPost _ _ => true | _ => false end.

(** A sink is configured when its handle or URL is set (and not empty). *)
Definition slack_configured (svc : NotificationService.t) : bool :=
  match NotificationService.slackWebhook svc with Some _ => true | None => false end.

Definition webhook_configured (svc : NotificationService.t) : bool :=
  Js.truthy_opt (NotificationService.webhookSiteUrl svc).

(** The state [processEmail] passes on to [indexEmail]: its own log line added. *)
Definition announced (email : ParsedMail) (account : string) (s : Sys) : Sys :=
  mkSys (docs s)
        (console s ++ [Log ("[" +:+ account +:+ "] Processing new email: "
                            +:+ Js.quoted (pm_subject email))])
        (calls s).

(* Supervisor *)

Module Sup.

Import ImapService.

(** A service freshly constructed and started, after the events [evs]. *)
Definition boot (tza : JsDate.Zone) (config : IAccountConfig) (evs : list (Z * Event))
    : t * list Effect :=
  run_events tza evs (startSync (new config)).1.

(** Every armed interval timer is the one [keepAliveInterval] refers to. *)
Definition timers_wf (s : t) : Prop :=
  forall p, p ∈ intervals s -> keepAliveInterval s = Some p.1.

(** What holds of every state a started service reaches. *)
Definition Inv (s : t) : Prop := close_listeners s = 1 /\ timers_wf s.

(** A handler that keeps an empty timer table empty and sends no NOOP. *)
Definition quiet (h : Handler) : Prop :=
  forall s, intervals s = [] -> intervals (h s).1 = [] /\ Noop ∉ commands (h s).2.

(** A handler that keeps the invariant. *)
Definition keeps (h : Handler) : Prop :=
  forall s, Inv s -> Inv (h s).1.

(** A handler that changes nothing in the service. *)
Definition pure (h : Handler) : Prop :=
  forall s, (h s).1 = s.

Definition inbox_opened (ev : Z * Event) : bool :=
  match ev.2 with
  | OpenBoxDone None => true
  | _ => false
  end.

(** The outcome of decoding one message of a batch: the moment the
    parser calls back, a parse error, or the decoded mail (if any). *)
Record Decode := mkDecode {
  at_time : Z;
  failure : option Js.Error;
  mail : option ParsedMail
}.

(** The parser callbacks of a batch, in the order they arrive. *)
Definition parsed_events (phase : Phase) (batch : list Decode) : list (Z * Event) :=
  map (fun d => (at_time d, Parsed phase (failure d) (mail d))) batch.

(** The mails of a batch that decoded. *)
Definition decoded (batch : list Decode) : list ParsedMail :=
  omap (fun d => match failure d with
                 | Some _ => None
                 | None => mail d
                 end) batch.

(** The parse errors of a batch. *)
Definition failed (batch : list Decode) : list Js.Error :=
  omap failure batch.

Definition parse_error_line (account : string) (phase : Phase) (e : Js.Error) : string * string :=
  (("[" +:+ account +:+ "] ") +:+ match phase with
                                  | Initial => "Error parsing email:"
                                  | Live => "Error parsing new email:"
                                  end, Js.message e).

End Sup.

(* --------------------------------------------------------------------- *)
(* Sample data                                                            *)
(* --------------------------------------------------------------------- *)

Module Sample.

Definition both_sinks : NotificationService.t :=
  (NotificationService.new (Some "https://hooks.slack.test/T0") (Some "https://webhook.test/w0")).1.

Definition empty : Sys := mkSys ∅ [] [].

(** A mail with every header and part present. *)
Definition mail : ParsedMail :=
  mkParsedMail (Some "<m1@example.test>") (Some (mkAddress "Ann <ann@example.test>"))
               (Some (ToMany [mkAddress "bob@example.test"; mkAddress "cy@example.test"]))
               (Some "Pricing") (Some "Tell me more.") None (Some 1700000000000%Z).

(** A mail whose source has no headers at all. *)
Definition headerless : ParsedMail :=
  mkParsedMail None None None None (Some "body only") None None.

(** The AI service answers in time with the given category. *)
Definition answering (c : string) : Env :=
  mkEnv 1793577600000 (Replies 120 (Some (mkCategorizeData (Some c)))) None "auto-1" None None.

(** The AI service answers after the timeout has passed. *)
Definition slow_ai : Env :=
  mkEnv 1793577600000 (Replies 10001 (Some (mkCategorizeData (Some "Interested"))))
        None "auto-1" None None.

(** The store rejects the write. *)
Definition store_down : Env :=
  mkEnv 1793577600000 (Replies 120 (Some (mkCategorizeData (Some "Interested"))))
        (Some (Js.mkError "ConnectionError")) "auto-1" None None.

(** Slack rejects the notification; everything else works. *)
Definition slack_down : Env :=
  mkEnv 1793577600000 (Replies 120 (Some (mkCategorizeData (Some "Interested"))))
        None "auto-1" (Some (Js.mkError "channel_not_found")) None.

Definition account : ImapService.IAccountConfig := ImapService.mkAccount "acct1".

(** A service that has connected and opened its inbox on 2 November 2026 (UTC). *)
Definition watching : ImapService.t :=
  (Sup.boot JsDate.utc account [(1793577600000%Z, ImapService.Ready);
                       (1793577600500%Z, ImapService.OpenBoxDone None)]).1.

(** A batch of three messages, the second of which does not decode. *)
Definition broken : Sup.Decode :=
  Sup.mkDecode 1793577601000 (Some (Js.mkError "Unexpected end of stream")) None.

Definition batch : list Sup.Decode :=
  [Sup.mkDecode 1793577600900 None (Some mail); broken;
   Sup.mkDecode 1793577601100 None (Some headerless)].

(** A parser that accepts the empty array only. *)
Definition parse (text : string) : Completion App.Json :=
  if String.eqb text "[]" then Return (App.JArray [])
  else Throw (Js.mkError "SyntaxError: Unexpected token").

(** The store is up, the accounts variable is not JSON. *)
Definition malformed_accounts : App.World :=
  App.mkWorld (Some "{id: acct1") None parse None (Return true) None.

End Sample.

(* --------------------------------------------------------------------- *)
(* ai.service.ts (reply suggestion) and index.ts (the two API routes)     *)
(* --------------------------------------------------------------------- *)

Module Api.

(** The body of the AI service's answer to /suggest-reply. *)
Record ReplyData := mkReplyData { reply : option string }.

(** One clause of the [must] list of the search request. *)
Inductive Filter :=
| MultiMatch (query : string) (fields : list string)
| Term (field value : string).

Inductive Query :=
| MatchAll
| BoolMust (must : list Filter).

(** One hit of a search answer. *)
Record Hit := mkHit { _id : string; _source : EmailDocument }.

(** One element of the array GET /api/emails answers with:
    [{ id: hit._id, ...hit._source }]. *)
Record ApiEmail := mkApiEmail { id : string; source : EmailDocument }.

Inductive Body :=
| JsonEmails (emails : list ApiEmail)
| JsonSuggestion (suggestion : string)
| JsonError (error : string).

(** What a route handler does, in order. *)
Inductive Event :=
| AiSuggestReply (body : string) (category : option string) (timeout : Z)
| EsSearch (index : string) (query : Query) (size : nat) (sort : list (string * string))
| EsGet (index : string) (id : string)
| Logged (l : LogLine)
| Responded (status : nat) (body : Body).

(** The collaborators during one request. *)
Record Env := mkEnv {
  es_search : Completion (list Hit);
  es_get : Completion (option EmailDocument);
  ai_reply : Peer (option ReplyData)
}.

(** An async computation: how it completes and what it did. *)
Definition Act (A : Type) : Type := Completion A * list Event.

Definition done {A} (a : A) : Act A := (Return a, []).

Definition fail {A} (e : Js.Error) : Act A := (Throw e, []).

Definition emit (ev : Event) : Act unit := (Return tt, [ev]).

Definition andThen {A B} (m : Act A) (k : A -> Act B) : Act B :=
  match m with
  | (Return a, evs) => let '(r, evs') := k a in (r, (evs ++ evs')%list)
  | (Throw e, evs) => (Throw e, evs)
  end.

(** [try { m } catch (e) { h e }] *)
Definition attempt {A} (m : Act A) (h : Js.Error -> Act A) : Act A :=
  match m with
  | (Return a, evs) => (Return a, evs)
  | (Throw e, evs) => let '(r, evs') := h e in (r, (evs ++ evs')%list)
  end.

(** An awaited request whose outcome the environment fixes. *)
Definition await {A} (request : Event) (outcome : Completion A) : Act A :=
  (outcome, [request]).

(** The outcome of an axios request with a timeout, as in [axios_post]. *)
Definition settle {A} (peer : Peer A) (timeout : Z) : Completion A :=
  match peer with
  | Fails e => Throw e
  | Replies latency data =>
      if (timeout <? latency)%Z then Throw (Js.mkError "timeout exceeded") else Return data
  end.

(** [data?.reply] *)
Definition reply_of (data : option ReplyData) : option string :=
  match data with
  | Some d => reply d
  | None => None
  end.

(** ai.service.ts, [getReplySuggestion] *)
Definition getReplySuggestion (env : Env) (emailBody : string) (category : option string)
    : Act string :=
  attempt
    (andThen (await (AiSuggestReply emailBody category 20000) (settle (ai_reply env) 20000))
       (fun data => done (Js.or_else (reply_of data) "Error: Could not generate suggestion.")))
    (fun error =>
       andThen (emit (Logged (LogError "[AI Service] Reply generation failed:" (Js.message error))))
         (fun _ => done "Error: AI service unreachable.")).

(** The query GET /api/emails builds from its two parameters, each given
    at most once in the query string, so a string or undefined. *)
Definition buildQuery (q accountId : option string) : Query :=
  let queryFilters :=
    ((if Js.truthy_opt q
      then [MultiMatch (Js.show q) ["subject"; "body"; "from"]] else []) ++
     (if Js.truthy_opt accountId
      then [Term "accountId.keyword" (Js.show accountId)] else []))%list in
  if decide (0 < length queryFilters) then BoolMust queryFilters else MatchAll.

(** GET /api/emails *)
Definition getEmails (env : Env) (q accountId : option string) : Act unit :=
  attempt
    (let esQuery := buildQuery q accountId in
     andThen (await (EsSearch "emails" esQuery 100 [("receivedAt", "desc")]) (es_search env))
       (fun hits =>
          let emails := map (fun hit => mkApiEmail (_id hit) (_source hit)) hits in
          emit (Responded 200 (JsonEmails emails))))
    (fun error =>
       andThen (emit (Logged (LogError "[API /api/emails] Error fetching emails:" (Js.message error))))
         (fun _ => emit (Responded 500 (JsonError (Js.message error))))).

(** POST /api/emails/:id/suggest-reply *)
Definition suggestReply (env : Env) (id : string) : Act unit :=
  attempt
    (andThen (await (EsGet "emails" id) (es_get env))
       (fun emailResult =>
          match emailResult with
          | None => emit (Responded 404 (JsonError "Email not found"))
          | Some source =>
              let emailBody := Js.or_else (body source) EmptyString in
              let emailCategory := aiCategory source in
              andThen (getReplySuggestion env emailBody emailCategory)
                (fun suggestion => emit (Responded 200 (JsonSuggestion suggestion)))
          end))
    (fun error =>
       andThen (emit (Logged (LogError "[API /suggest-reply] Error:" (Js.message error))))
         (fun _ => emit (Responded 500 (JsonError (Js.message error))))).

(** The responses among the events, in order. *)
Definition responses (evs : list Event) : list (nat * Body) :=
  omap (fun ev => match ev with Responded st b => Some (st, b) | _ => None end) evs.

(** The requests to the AI service among the events. *)
Definition ai_requests (evs : list Event) : list Event :=
  List.filter (fun ev => match ev with AiSuggestReply _ _ _ => true | _ => false end) evs.

End Api.

(* --------------------------------------------------------------------- *)
(* reachinbox-ui/src/App.tsx                                              *)
(* --------------------------------------------------------------------- *)

Module Ui.

(** The [Email] of the frontend. A string is a sequence of code units,
    each below 256. *)
Record Email := mkEmail {
  id : string;
  accountId : string;
  from : option string;
  to : option string;
  subject : option string;
  body : option string;
  htmlBody : option string;
  receivedAt : string;
  aiCategory : option string
}.

(** [Array.from(new Set(xs))]: a set keeps its elements in insertion
    order and ignores a value it already holds. *)
Fixpoint set_from (seen : list string) (xs : list string) : list string :=
  match xs with
  | [] => seen
  | x :: rest =>
      if bool_decide (x ∈ seen) then set_from seen rest
      else set_from (seen ++ [x])%list rest
  end.

(** [accountIds] of [App] *)
Definition accountIds (emails : list Email) : list string :=
  set_from [] (map accountId emails).

(** The code units the class [\s] matches, among those below 256. *)
Definition is_space (c : Ascii.ascii) : bool :=
  match Ascii.nat_of_ascii c with
  | 9 | 10 | 11 | 12 | 13 | 32 | 160 => true
  | _ => false
  end.

Definition dash : Ascii.ascii := Ascii.ascii_of_nat 45.

(** [s.replace(/\s+/g, '-')]: every maximal run of white space becomes
    one dash. [in_run] tells that the code unit before was white space. *)
Fixpoint replace_spaces (in_run : bool) (s : string) : string :=
  match s with
  | EmptyString => EmptyString
  | String c rest =>
      if is_space c
      then if in_run then replace_spaces true rest
           else String dash (replace_spaces true rest)
      else String c (replace_spaces false rest)
  end.

(** [categoryClass] of [EmailItem] *)
Definition categoryClass (email : Email) : string :=
  Js.or_else (replace_spaces false <$> aiCategory email) EmptyString.

(** The text of the snippet line of [EmailItem]. *)
Definition snippet (email : Email) : string :=
  Js.or_else (String.substring 0 100 <$> body email) EmptyString +:+ "...".

(** The class names of the account filter of [Sidebar]: the entry for all
    accounts first, then one entry for each account. *)
Definition filterClasses (accounts : list string) (activeAccount : option string)
    : list string :=
  (if negb (Js.truthy_opt activeAccount) then "selected" else EmptyString)
  :: map (fun id => if bool_decide (activeAccount = Some id) then "selected" else EmptyString)
         accounts.

(** The two pieces of state of [EmailView]; a suggestion may be undefined
    when the server's answer carries none. *)
Record ViewState := mkViewState {
  suggestion : option string;
  isLoadingSuggestion : bool
}.

(** How the POST of [handleSuggestReply] ends for axios: the server's first
    response, or none at all when the network fails. axios resolves for a
    status from 200 to 299 and rejects otherwise. *)
Definition suggestion_of (answer : option (nat * Api.Body)) : Completion (option string) :=
  match answer with
  | Some (status, data) =>
      if Nat.leb 200 status && Nat.ltb status 300
      then Return (match data with
                   | Api.JsonSuggestion s => Some s
                   | _ => None
                   end)
      else Throw (Js.mkError "Request failed")
  | None => Throw (Js.mkError "Network Error")
  end.

(** [handleSuggestReply]: the successive states of the view, the first
    being the one the handler starts from. Without an email nothing is
    set. *)
Definition handleSuggestReply (email : option Email) (answer : option (nat * Api.Body))
    (st : ViewState) : list ViewState :=
  match email with
  | None => [st]
  | Some _ =>
      let st1 := mkViewState (suggestion st) true in
      let st2 := mkViewState (Some EmptyString) true in
      let st3 :=
        match suggestion_of answer with
        | Return s => mkViewState s true
        | Throw _ => mkViewState (Some "Error: Could not get suggestion.") true
        end in
      let st4 := mkViewState (suggestion st3) false in
      [st; st1; st2; st3; st4]
  end.

(** The part of [App] the search effect depends on, and the timers the
    effect has armed: each with its delay and the values its closure
    captured. *)
Record AppState := mkAppState {
  searchQuery : string;
  activeAccountId : option string;
  searchTimeout : option nat;
  timers : list (nat * (Z * (string * option string)));
  next_timer : nat
}.

Inductive Action :=
| SetSearchQuery (query : string)
| SetActiveAccountId (accountId : option string)
| TimerFired (timer : nat).

(** The GET the fetch of the effect sends: its [q] and [accountId] params. *)
Record Fetch := mkFetch { q : string; account : option string }.

(** The effect body: arm a 500 ms timer that fetches with the current values. *)
Definition runEffect (s : AppState) : AppState :=
  mkAppState (searchQuery s) (activeAccountId s) (Some (next_timer s))
             ((next_timer s, (500%Z, (searchQuery s, activeAccountId s))) :: timers s)
             (S (next_timer s)).

(** The cleanup the effect returned: [clearTimeout(searchTimeout)]. *)
Definition cleanup (s : AppState) : AppState :=
  match searchTimeout s with
  | Some timer =>
      mkAppState (searchQuery s) (activeAccountId s) (searchTimeout s)
                 (filter (fun p => p.1 ≠ timer) (timers s)) (next_timer s)
  | None => s
  end.

(** The state after the first render: the effect has run once. *)
Definition mount : AppState :=
  runEffect (mkAppState EmptyString None None [] 0).

(** A state setter re-renders only when the value changes; the effect is
    then cleaned up and run again because a dependency changed. A timer
    that is still armed fires once and fetches with what it captured. *)
Definition act (a : Action) (s : AppState) : AppState * list Fetch :=
  match a with
  | SetSearchQuery query =>
      if decide (query = searchQuery s) then (s, [])
      else
        let s1 := cleanup s in
        (runEffect (mkAppState query (activeAccountId s1) (searchTimeout s1)
                               (timers s1) (next_timer s1)), [])
  | SetActiveAccountId accountId =>
      if decide (accountId = activeAccountId s) then (s, [])
      else
        let s1 := cleanup s in
        (runEffect (mkAppState (searchQuery s1) accountId (searchTimeout s1)
                               (timers s1) (next_timer s1)), [])
  | TimerFired timer =>
      match List.find (fun p => Nat.eqb p.1 timer) (timers s) with
      | Some (_, (_, (query, accountId))) =>
          (mkAppState (searchQuery s) (activeAccountId s) (searchTimeout s)
                      (filter (fun p => p.1 ≠ timer) (timers s)) (next_timer s),
           [mkFetch query accountId])
      | None => (s, [])
      end
  end.

Fixpoint acts (actions : list Action) (s : AppState) : AppState * list Fetch :=
  match actions with
  | [] => (s, [])
  | a :: rest =>
      let '(s1, f1) := act a s in
      let '(s2, f2) := acts rest s1 in
      (s2, (f1 ++ f2)%list)
  end.

(** The parameters as the API route receives them: axios leaves a null
    parameter out and sends an empty string as it is. *)
Definition route_query (f : Fetch) : Api.Query :=
  Api.buildQuery (Some (q f)) (account f).

End Ui.

(* Counting over traces of the supervisor *)

Module Trace.

Import ImapService.

Definition is_connect (c : Command) : bool :=
  match c with Connect => true | _ => false end.

Definition is_openbox (c : Command) : bool :=
  match c with OpenBox _ _ => true | _ => false end.

Definition is_close (ev : Z * Event) : bool :=
  match ev.2 with Close => true | _ => false end.

(** How many times the effects connect. *)
Definition connects (effs : list Effect) : nat :=
  length (List.filter is_connect (commands effs)).

(** How many times the effects open a mailbox. *)
Definition openboxes (effs : list Effect) : nat :=
  length (List.filter is_openbox (commands effs)).

(** How many close events a trace holds. *)
Definition closes (evs : list (Z * Event)) : nat :=
  length (List.filter is_close evs).

(** The one-shot timers have distinct identifiers, all handed out already. *)
Definition timeouts_wf (s : t) : Prop :=
  NoDup (map fst (timeouts s)) /\ forall p, p ∈ timeouts s -> p.1 < next_timer s.

(** The effects of the 'mail' listener in a given state. *)
Definition mail_effects (numNewMsgs : N) (s : t) : list Effect :=
  Console (Log (tag s +:+ "New mail event! You have " +:+ pretty numNewMsgs +:+ " new message(s)."))
  :: (if decide (imap_state s ≠ authenticated)
      then [Console (LogError (tag s +:+ "Not authenticated. Search aborted. Reconnect will handle.")
                              EmptyString)]
      else [Cmd (Search [UNSEEN])]).

(** The effects of [onReady]. *)
Definition ready_effects (s : t) : list Effect :=
  [Console (Log (tag s +:+ "Successfully connected!")); Cmd (OpenBox "INBOX" false)].

End Trace.

(* ===================================================================== *)
(* Properties of the indexing pipeline                                    *)
(* ===================================================================== *)

Section Pipeline.

Variable svc : NotificationService.t.

(** [categorizeEmail] always hands back a category, never throws, and
    touches neither the store nor anything but its own request. *)
Lemma categorizeEmail_run env subj text0 s :
  AIService.categorizeEmail env subj text0 s =
    (Return (category_in env),
     mkSys (docs s) (console s ++ ai_console env)
           (calls s ++ [AiCategorize (Js.or_else (Some subj) "No Subject")
                                     (Js.or_else (Some text0) EmptyString) 10000])).
Proof.
  destruct s as [d c k].
  unfold AIService.categorizeEmail, category_in, ai_console, ai_outcome,
    try_catch, bind, record_call, axios_post, console_log, ret, throw.
  destruct (ai env) as [latency data | e]; simpl.
  - change (10000 <? latency)%Z with (Z.ltb 10000 latency).
    destruct (Z.ltb 10000 latency); simpl; rewrite ?app_nil_r; reflexivity.
  - reflexivity.
Qed.

(** A document that is not Interested: nothing happens at all. *)
Lemma sendInterestNotification_other env document s :
  aiCategory document <> Some "Interested" ->
  NotificationService.sendInterestNotification svc env document s = (Return tt, s).
Proof.
  intros H. unfold NotificationService.sendInterestNotification.
  rewrite bool_decide_eq_false_2 by exact H. reflexivity.
Qed.

(** An Interested document: the outcome of the notification step, for
    every behaviour of the two sinks. *)
Lemma sendInterestNotification_interested env document s :
  aiCategory document = Some "Interested" ->
  NotificationService.sendInterestNotification svc env document s =
    (Return tt,
     mkSys (docs s) (console s ++ notification_console svc env document)
           (calls s ++ attempts svc document)).
Proof.
  intros H. destruct s as [d c k].
  unfold NotificationService.sendInterestNotification.
  rewrite bool_decide_eq_true_2 by exact H.
  unfold notification_console, attempts, NotificationService.send,
    try_catch, bind, record_call, console_log, ret, throw.
  destruct svc as [hook url]; simpl.
  destruct hook as [h|], url as [u|]; simpl;
    try destruct (Js.truthy u); simpl;
    destruct (slack env), (webhook env); simpl;
    rewrite <- ?app_assoc, ?app_nil_r; simpl; reflexivity.
Qed.

Lemma sendInterestNotification_run env document s :
  NotificationService.sendInterestNotification svc env document s =
    (Return tt,
     mkSys (docs s) (console s ++ notify_console svc env document)
           (calls s ++ notify_calls svc document)).
Proof.
  unfold notify_console, notify_calls. case_bool_decide as H.
  - now apply sendInterestNotification_interested.
  - rewrite sendInterestNotification_other by exact H.
    destruct s; simpl. now rewrite !app_nil_r.
Qed.

(** [indexEmail] when the store accepts the write. *)
Lemma indexEmail_stored env email account s :
  es_index env = None ->
  let document := document_in env email account in
  ElasticsearchService.indexEmail svc env email account s =
    (Return tt,
     mkSys (<[store_key env document := document]> (docs s))
           (console s ++ ai_console env ++ [indexed_line document]
              ++ notify_console svc env document)
           (calls s ++ [ai_request email; EsIndex (messageId document) document]
              ++ notify_calls svc document)).
Proof.
  intros Hes document. destruct s as [d c k].
  unfold ElasticsearchService.indexEmail, try_catch.
  unfold bind at 1. rewrite categorizeEmail_run. cbn [docs console calls].
  fold document. unfold bind at 1.
  unfold ElasticsearchService.client_index, bind at 1, record_call.
  rewrite Hes. cbn [docs console calls].
  unfold bind at 1, console_log. cbn [docs console calls].
  rewrite sendInterestNotification_run. cbn [docs console calls].
  unfold store_key, indexed_line, ai_request. subst document.
  unfold document_in. cbn [messageId subject aiCategory ElasticsearchService.makeDocument Js.show].
  rewrite <- !app_assoc. reflexivity.
Qed.

(** [indexEmail] when the store rejects the write. *)
Lemma indexEmail_rejected env email account s e :
  es_index env = Some e ->
  let document := document_in env email account in
  ElasticsearchService.indexEmail svc env email account s =
    (Return tt,
     mkSys (docs s)
           (console s ++ ai_console env
              ++ [LogError "[Elasticsearch] Error indexing email:" (Js.message e)])
           (calls s ++ [ai_request email; EsIndex (messageId document) document])).
Proof.
  intros Hes document. destruct s as [d c k].
  unfold ElasticsearchService.indexEmail, try_catch.
  unfold bind at 1. rewrite categorizeEmail_run. cbn [docs console calls].
  fold document. unfold bind at 1.
  unfold ElasticsearchService.client_index, bind at 1, record_call.
  rewrite Hes. cbn [docs console calls]. unfold throw, console_log.
  cbn [docs console calls].
  unfold ai_request. subst document. unfold document_in.
  cbn [messageId ElasticsearchService.makeDocument].
  rewrite <- !app_assoc. reflexivity.
Qed.

End Pipeline.

Section PipelineClaims.

Variable svc : NotificationService.t.

(** C1. A message whose identifier is present is stored under that
    identifier by both of two indexing passes; after the second pass the
    store holds, under the identifier, the document the second pass
    produced (the one it sent to the store), every other key is as the
    first pass left it, and the store has not grown: the second pass
    overwrites and does not duplicate. *)
Theorem reindex_overwrites env1 env2 email account mid s :
  pm_messageId email = Some mid ->
  es_index env1 = None ->
  es_index env2 = None ->
  let s1 := (ElasticsearchService.indexEmail svc env1 email account s).2 in
  let s2 := (ElasticsearchService.indexEmail svc env2 email account s1).2 in
  let document1 := document_in env1 email account in
  let document2 := document_in env2 email account in
  store_key env1 document1 = mid /\
  store_key env2 document2 = mid /\
  docs s1 !! mid = Some document1 /\
  EsIndex (Some mid) document2 ∈ calls s2 /\
  docs s2 !! mid = Some document2 /\
  (forall k, k <> mid -> docs s2 !! k = docs s1 !! k) /\
  size (docs s2) = size (docs s1).
Proof.
  intros Hmid H1 H2 s1 s2 document1 document2.
  assert (K1 : store_key env1 document1 = mid).
  { unfold store_key, document1, document_in. simpl. now rewrite Hmid. }
  assert (K2 : store_key env2 document2 = mid).
  { unfold store_key, document2, document_in. simpl. now rewrite Hmid. }
  assert (M2 : messageId document2 = Some mid) by exact Hmid.
  subst s2 s1.
  rewrite (indexEmail_stored svc env1 email account s H1).
  rewrite (indexEmail_stored svc env2 email account _ H2).
  fold document1 document2. cbn [snd docs calls]. rewrite K1, K2, M2.
  repeat split; try reflexivity.
  - apply lookup_insert_eq.
  - apply elem_of_app. right. apply elem_of_app. left.
    apply elem_of_cons. right. apply elem_of_cons. now left.
  - apply lookup_insert_eq.
  - intros k Hk. now apply lookup_insert_ne.
  - apply map_size_insert_Some. rewrite lookup_insert_eq. eauto.
Qed.


(** C6. For a document whose category is Interested, the notification
    step makes exactly one attempt for each configured sink (Slack, then
    the external webhook) whatever either sink answers, does not throw,
    and leaves the store as it was; and an [indexEmail] call that stores
    an Interested document ends with the document stored and these
    attempts made, for every behaviour of the sinks. *)
Theorem interested_notifies_each_sink env document s :
  aiCategory document = Some "Interested" ->
  let r := NotificationService.sendInterestNotification svc env document s in
  r.1 = Return tt /\
  calls r.2 = (calls s ++ attempts svc document)%list /\
  length (List.filter is_slack (attempts svc document)) = (if slack_configured svc then 1 else 0) /\
  length (List.filter is_webhook (attempts svc document)) = (if webhook_configured svc then 1 else 0) /\
  docs r.2 = docs s /\
  (forall email account,
     es_index env = None ->
     document_in env email account = document ->
     let s' := (ElasticsearchService.indexEmail svc env email account s).2 in
     docs s' = <[store_key env document := document]> (docs s) /\
     notifications (calls s') = (notifications (calls s) ++ attempts svc document)%list).
Proof.
  intros Hcat r. subst r.
  rewrite (sendInterestNotification_interested svc env document s Hcat).
  cbn [fst snd docs calls].
  repeat split.
  - unfold attempts, slack_configured.
    destruct svc as [hook url]; simpl.
    destruct hook, url as [u|]; simpl; try destruct (Js.truthy u); reflexivity.
  - unfold attempts, webhook_configured, Js.truthy_opt.
    destruct svc as [hook url]; simpl.
    destruct hook, url as [u|]; simpl; try destruct (Js.truthy u); reflexivity.
  - rewrite (indexEmail_stored svc env email account s H). cbn [snd docs].
    now rewrite H0.
  - rewrite (indexEmail_stored svc env email account s H). cbn [snd calls].
    rewrite H0. unfold notify_calls. rewrite bool_decide_eq_true_2 by exact Hcat.
    unfold notifications. rewrite !List.filter_app. simpl. f_equal.
    unfold attempts. destruct svc as [hook url]; simpl.
    destruct hook, url as [u|]; simpl; try destruct (Js.truthy u); reflexivity.
Qed.

(** C8 (as amended). For every message, also one whose source omits
    headers, indexing succeeds when the store accepts the write. The stored
    document carries the subject exactly as decoded, so a missing subject
    stays absent there (and in the document posted to the webhook); the
    text No Subject stands in for it in the two outgoing messages that
    carry a subject of their own, the categorization request and the Slack
    notification. A missing date is replaced by the processing time. *)
Theorem headerless_defaults env email account s :
  es_index env = None ->
  let r := ElasticsearchService.indexEmail svc env email account s in
  let document := document_in env email account in
  r.1 = Return tt /\
  docs r.2 !! store_key env document = Some document /\
  subject document = pm_subject email /\
  (pm_subject email = None ->
     subject document = None /\
     calls r.2 =
       (calls s ++
        [AiCategorize "No Subject" (Js.or_else (pm_text email) EmptyString) 10000;
         EsIndex (pm_messageId email) document] ++
        (if bool_decide (category_in env = "Interested")
         then
           match NotificationService.slackWebhook svc with
           | Some _ => [SlackSend (Js.or_else (text <$> pm_from email) "Unknown") "No Subject"]
           | None => []
           end ++
           match NotificationService.webhookSiteUrl svc with
           | Some url => if Js.truthy url then [WebhookPost url document] else []
           | None => []
           end
         else []))%list) /\
  (pm_date email = None -> receivedAt document = now env) /\
  (forall d, pm_date email = Some d -> receivedAt document = d).
Proof.
  intros Hes r document. subst r.
  rewrite (indexEmail_stored svc env email account s Hes).
  fold document. cbn [fst snd docs calls].
  split; [reflexivity|]. split; [apply lookup_insert_eq|].
  split; [reflexivity|]. split; [|split].
  - intros Hsub. split; [exact Hsub|].
    assert (Hai : ai_request email
                  = AiCategorize "No Subject" (Js.or_else (pm_text email) EmptyString) 10000).
    { unfold ai_request. rewrite Hsub. simpl. f_equal.
      destruct (pm_text email) as [t|]; simpl; [|reflexivity]. destruct t; reflexivity. }
    rewrite Hai. do 3 f_equal.
    unfold notify_calls, attempts.
    assert (Hcat : aiCategory document = Some (category_in env)) by reflexivity.
    assert (Hsubj : subject document = None) by exact Hsub.
    assert (Hfrom : from document = text <$> pm_from email) by reflexivity.
    rewrite Hcat, Hsubj, Hfrom.
    destruct (decide (category_in env = "Interested")) as [Hc|Hc].
    + rewrite !bool_decide_eq_true_2 by congruence. reflexivity.
    + rewrite !bool_decide_eq_false_2 by congruence. reflexivity.
  - intros Hd. unfold document, document_in. simpl. now rewrite Hd.
  - intros d Hd. unfold document, document_in. simpl. now rewrite Hd.
Qed.

(** C10. [indexEmail] never rejects: whatever the AI service, the store
    and the sinks do, its promise resolves, so the rejection handler of
    [processEmail] never runs. A failed categorization, a rejected write
    and a rejected notification are each logged inside the call. The
    notification requests come after the write and only when it
    succeeded: when the store rejects the write, the store is unchanged
    and no notification is attempted. *)
Theorem handoff_never_rejects env email account s :
  let r := ElasticsearchService.indexEmail svc env email account s in
  let p := processEmail svc env email account s in
  let document := document_in env email account in
  r.1 = Return tt /\
  p = ElasticsearchService.indexEmail svc env email account (announced email account s) /\
  p.1 = Return tt /\
  (forall e, ai_outcome env = Throw e ->
     LogError "[AI Service] Categorization failed:" (Js.message e) ∈ console r.2) /\
  (forall e, es_index env = Some e ->
     LogError "[Elasticsearch] Error indexing email:" (Js.message e) ∈ console r.2 /\
     docs r.2 = docs s /\
     notifications (calls r.2) = notifications (calls s)) /\
  (es_index env = None ->
     calls r.2 = (calls s ++ [ai_request email; EsIndex (messageId document) document]
                    ++ notify_calls svc document)%list /\
     (aiCategory document = Some "Interested" ->
        (forall e, slack_configured svc = true -> slack env = Some e ->
           LogError "[Slack] Error sending notification:" (Js.message e) ∈ console r.2) /\
        (forall e, webhook_configured svc = true -> webhook env = Some e ->
           LogError "[Webhook] Error triggering webhook.site:" (Js.message e) ∈ console r.2))).
Proof.
  intros r p document.
  assert (Hr : r.1 = Return tt).
  { subst r. destruct (es_index env) as [e|] eqn:Hes.
    - now rewrite (indexEmail_rejected svc env email account s e Hes).
    - now rewrite (indexEmail_stored svc env email account s Hes). }
  assert (Hp : p = ElasticsearchService.indexEmail svc env email account (announced email account s)).
  { subst p. unfold processEmail, bind, console_log, try_catch. fold (announced email account s).
    destruct (es_index env) as [e|] eqn:Hes.
    - now rewrite (indexEmail_rejected svc env email account _ e Hes).
    - now rewrite (indexEmail_stored svc env email account _ Hes). }
  split; [exact Hr|]. split; [exact Hp|]. split.
  { rewrite Hp. destruct (es_index env) as [e|] eqn:Hes.
    - now rewrite (indexEmail_rejected svc env email account _ e Hes).
    - now rewrite (indexEmail_stored svc env email account _ Hes). }
  split; [|split].
  - intros e He. subst r. unfold ai_console.
    assert (Hc : ai_console env = [LogError "[AI Service] Categorization failed:" (Js.message e)]).
    { unfold ai_console. now rewrite He. }
    destruct (es_index env) as [e'|] eqn:Hes.
    + rewrite (indexEmail_rejected svc env email account s e' Hes). cbn [snd console].
      rewrite Hc. apply elem_of_app. right. apply elem_of_cons. now left.
    + rewrite (indexEmail_stored svc env email account s Hes). cbn [snd console].
      rewrite Hc. apply elem_of_app. right. apply elem_of_cons. now left.
  - intros e Hes. subst r.
    rewrite (indexEmail_rejected svc env email account s e Hes). cbn [snd console docs calls].
    split; [|split].
    + apply elem_of_app. right. apply elem_of_app. right. apply elem_of_cons. now left.
    + reflexivity.
    + unfold notifications. rewrite List.filter_app. simpl. now rewrite app_nil_r.
  - intros Hes. subst r.
    rewrite (indexEmail_stored svc env email account s Hes). fold document.
    cbn [snd console calls]. split; [reflexivity|].
    intros Hcat. unfold notify_console. rewrite bool_decide_eq_true_2 by exact Hcat.
    unfold notification_console, slack_configured, webhook_configured, Js.truthy_opt.
    split.
    + intros e Hcfg He. rewrite He.
      destruct (NotificationService.slackWebhook svc); [|discriminate].
      apply elem_of_app. right. apply elem_of_app. right. apply elem_of_cons. right.
      apply elem_of_cons. right. apply elem_of_app. left. apply elem_of_cons. now left.
    + intros e Hcfg He. rewrite He.
      destruct (NotificationService.webhookSiteUrl svc) as [u|]; [|discriminate].
      rewrite Hcfg.
      apply elem_of_app. right. apply elem_of_app. right. apply elem_of_cons. right.
      apply elem_of_cons. right. apply elem_of_app. right. apply elem_of_cons. now left.
Qed.

End PipelineClaims.

(** Two passes over the sample mail, the second with another category:
    one document under the message identifier, the second pass's. *)
Lemma reindex_overwrites_witness :
  let s1 := (ElasticsearchService.indexEmail Sample.both_sinks (Sample.answering "Interested")
               Sample.mail "acct1" Sample.empty).2 in
  let s2 := (ElasticsearchService.indexEmail Sample.both_sinks (Sample.answering "General")
               Sample.mail "acct1" s1).2 in
  docs s2 !! "<m1@example.test>" = Some (document_in (Sample.answering "General") Sample.mail "acct1")
  /\ size (docs s2) = size (docs s1).
Proof.
  pose proof (reindex_overwrites Sample.both_sinks (Sample.answering "Interested")
                (Sample.answering "General") Sample.mail "acct1" "<m1@example.test>"
                Sample.empty eq_refl eq_refl eq_refl) as H.
  cbv zeta in H. destruct H as (_ & _ & _ & _ & H5 & _ & H7).
  split; [exact H5 | exact H7].
Defined.


(** Slack rejects, the webhook is still called. *)
Lemma interested_notifies_each_sink_witness :
  let document := document_in Sample.slack_down Sample.mail "acct1" in
  calls (NotificationService.sendInterestNotification Sample.both_sinks Sample.slack_down
           document Sample.empty).2
  = attempts Sample.both_sinks document.
Proof.
  intros document.
  pose proof (interested_notifies_each_sink Sample.both_sinks Sample.slack_down document
                Sample.empty eq_refl) as H.
  cbv zeta in H. destruct H as (_ & H2 & _). exact H2.
Defined.

(** C8, counterexample. A mail without a subject header is stored with the
    subject absent, not with the empty string. *)
Lemma headerless_subject_not_empty_string :
  exists document,
    docs (ElasticsearchService.indexEmail Sample.both_sinks (Sample.answering "General")
            Sample.headerless "acct1" Sample.empty).2 !! "auto-1" = Some document /\
    subject document = None /\
    subject document <> Some EmptyString.
Proof.
  eexists. split.
  - rewrite (indexEmail_stored Sample.both_sinks (Sample.answering "General")
               Sample.headerless "acct1" Sample.empty eq_refl).
    cbn [snd docs]. apply lookup_insert_eq.
  - split; [reflexivity | discriminate].
Qed.

Lemma headerless_defaults_witness :
  let r := ElasticsearchService.indexEmail Sample.both_sinks (Sample.answering "General")
             Sample.headerless "acct1" Sample.empty in
  let document := document_in (Sample.answering "General") Sample.headerless "acct1" in
  r.1 = Return tt /\ subject document = None /\ receivedAt document = 1793577600000%Z.
Proof.
  intros r document.
  pose proof (headerless_defaults Sample.both_sinks (Sample.answering "General")
                Sample.headerless "acct1" Sample.empty eq_refl) as H.
  cbv zeta in H. destruct H as (H1 & _ & _ & H4 & H5 & _).
  split; [exact H1|]. split; [exact (proj1 (H4 eq_refl)) | exact (H5 eq_refl)].
Defined.

(** The store is down: resolved all the same, nothing stored, nobody notified. *)
Lemma handoff_never_rejects_witness :
  let r := ElasticsearchService.indexEmail Sample.both_sinks Sample.store_down
             Sample.mail "acct1" Sample.empty in
  r.1 = Return tt /\ docs r.2 = ∅ /\ notifications (calls r.2) = [].
Proof.
  intros r.
  pose proof (handoff_never_rejects Sample.both_sinks Sample.store_down Sample.mail "acct1"
                Sample.empty) as H.
  cbv zeta in H. destruct H as (H1 & _ & _ & _ & H5 & _).
  destruct (H5 _ eq_refl) as (_ & Hd & Hn).
  split; [exact H1|]. split; [exact Hd | exact Hn].
Defined.

(* ===================================================================== *)
(* Properties of the Date arithmetic                                      *)
(* ===================================================================== *)

Module JsDateFacts.

Import JsDate.
Local Open Scope Z_scope.







Example leap_day :
  isoDate (setDate utc 1709253000000 (getDate utc 1709253000000 - 1)) = "2024-02-29".
Proof. vm_compute. reflexivity. Qed.

Example new_year_east_of_utc :
  isoDate (setDate (fixed 19800000) 1767225600000
             (getDate (fixed 19800000) 1767225600000 - 1)) = "2025-12-31".
Proof. vm_compute. reflexivity. Qed.

Example epoch : isoDate 0 = "1970-01-01".
Proof. vm_compute. reflexivity. Qed.

Example before_epoch : isoDate (-1) = "1969-12-31".
Proof. vm_compute. reflexivity. Qed.

Example last_four_digit_day : isoDate 253402300799999 = "9999-12-31".
Proof. vm_compute. reflexivity. Qed.

Example end_of_time : isoDate 8640000000000000 = "+275760-09-13".
Proof. vm_compute. reflexivity. Qed.

End JsDateFacts.

(* ===================================================================== *)
(* Properties of the supervisor                                           *)
(* ===================================================================== *)

Module SupFacts.

Import ImapService Sup.

Lemma commands_app e1 e2 : commands (e1 ++ e2) = (commands e1 ++ commands e2)%list.
Proof. apply omap_app. Qed.

Lemma handoffs_app e1 e2 : handoffs (e1 ++ e2) = (handoffs e1 ++ handoffs e2)%list.
Proof. apply omap_app. Qed.

Lemma errors_app e1 e2 : errors (e1 ++ e2) = (errors e1 ++ errors e2)%list.
Proof. apply omap_app. Qed.

(** How [seq] runs, by cases on the first handler's result. *)
Lemma seq_unfold h1 h2 s :
  seq h1 h2 s =
    if halted (h1 s).1 then h1 s
    else ((h2 (h1 s).1).1, ((h1 s).2 ++ (h2 (h1 s).1).2)%list).
Proof.
  unfold seq. destruct (h1 s) as [s1 e1]. simpl.
  destruct (halted s1); [reflexivity|]. now destruct (h2 s1).
Qed.

Section Combinators.

Lemma quiet_seq h1 h2 : quiet h1 -> quiet h2 -> quiet (seq h1 h2).
Proof.
  intros Q1 Q2 s Hs. rewrite seq_unfold.
  destruct (Q1 s Hs) as [I1 N1].
  destruct (halted (h1 s).1); [now split|].
  destruct (Q2 _ I1) as [I2 N2]. simpl. split; [exact I2|].
  rewrite commands_app. intros [H|H]%elem_of_app; [now apply N1 | now apply N2].
Qed.

Lemma quiet_skip : quiet skip.
Proof. intros s Hs. split; [exact Hs | apply not_elem_of_nil]. Qed.

Lemma quiet_times n h : quiet h -> quiet (times n h).
Proof.
  intros Q. induction n as [|n IH]; simpl; [apply quiet_skip | now apply quiet_seq].
Qed.

(** A handler whose result depends on the state it is run in. *)
Lemma quiet_dep (f : t -> Handler) : (forall s0, quiet (f s0)) -> quiet (fun s => f s s).
Proof. intros Q s Hs. now apply (Q s). Qed.

Lemma keeps_seq h1 h2 : keeps h1 -> keeps h2 -> keeps (seq h1 h2).
Proof.
  intros K1 K2 s Hs. rewrite seq_unfold.
  destruct (halted (h1 s).1); [now apply K1|]. simpl. apply K2. now apply K1.
Qed.

Lemma keeps_skip : keeps skip.
Proof. intros s Hs. exact Hs. Qed.

Lemma keeps_times n h : keeps h -> keeps (times n h).
Proof.
  intros K. induction n as [|n IH]; simpl; [apply keeps_skip | now apply keeps_seq].
Qed.

Lemma keeps_dep (f : t -> Handler) : (forall s0, keeps (f s0)) -> keeps (fun s => f s s).
Proof. intros K s Hs. now apply (K s). Qed.

Lemma pure_keeps h : pure h -> keeps h.
Proof. intros P s Hs. now rewrite P. Qed.

Lemma pure_seq h1 h2 : pure h1 -> pure h2 -> pure (seq h1 h2).
Proof.
  intros P1 P2 s. rewrite seq_unfold.
  destruct (halted (h1 s).1); [apply P1|]. simpl. now rewrite P1, P2.
Qed.

Lemma pure_times n h : pure h -> pure (times n h).
Proof.
  intros P. induction n as [|n IH]; simpl; [now intros s | now apply pure_seq].
Qed.

End Combinators.

(** Closes a goal about a handler that is a single state update or a
    single effect, by running it on the fields of the state. *)
Ltac run_primitive :=
  let s := fresh "s" in
  intros s; destruct s; cbn in *.

Ltac no_noop :=
  first
    [ apply not_elem_of_nil
    | let H := fresh in intros H; apply list_elem_of_singleton in H; discriminate H ].

Section Quiet.

Lemma quiet_log f : quiet (log f).
Proof. run_primitive. intros ->. split; [reflexivity | no_noop]. Qed.

Lemma quiet_log_error f e : quiet (log_error f e).
Proof. run_primitive. intros ->. split; [reflexivity | no_noop]. Qed.

Lemma quiet_emit e : e <> Cmd Noop -> quiet (emit e).
Proof.
  intros He s Hs. split; [exact Hs|]. destruct e as [c| | |]; cbn; try no_noop.
  intros H. apply list_elem_of_singleton in H. congruence.
Qed.

Lemma quiet_set_imap_state st : quiet (set_imap_state st).
Proof. run_primitive. intros ->. split; [reflexivity | no_noop]. Qed.

Lemma quiet_clearInterval timer : quiet (clearInterval timer).
Proof. run_primitive. intros ->. split; [reflexivity | no_noop]. Qed.

Lemma quiet_setTimeout delay : quiet (setTimeout delay).
Proof. run_primitive. intros ->. split; [reflexivity | no_noop]. Qed.

Lemma quiet_clearTimeout timer : quiet (clearTimeout timer).
Proof. run_primitive. intros ->. split; [reflexivity | no_noop]. Qed.

Lemma quiet_add_mail_listener : quiet add_mail_listener.
Proof. run_primitive. intros ->. split; [reflexivity | no_noop]. Qed.

Lemma quiet_take_ready_listeners : quiet take_ready_listeners.
Proof. run_primitive. intros ->. split; [reflexivity | no_noop]. Qed.

Lemma quiet_uncaught e : quiet (uncaught e).
Proof. run_primitive. intros ->. split; [reflexivity | no_noop]. Qed.

Lemma quiet_clearKeepAlive : quiet clearKeepAlive.
Proof.
  intros s Hs. unfold clearKeepAlive. destruct (keepAliveInterval s);
    [now apply quiet_clearInterval | now apply quiet_skip].
Qed.

Lemma quiet_onClose : quiet onClose.
Proof.
  unfold onClose.
  repeat apply quiet_seq;
    auto using quiet_log, quiet_clearKeepAlive, quiet_setTimeout.
Qed.

Lemma quiet_onReady : quiet onReady.
Proof.
  unfold onReady. apply quiet_seq; [apply quiet_log|]. now apply quiet_emit.
Qed.

Lemma quiet_onMail n : quiet (onMail n).
Proof.
  unfold onMail. apply quiet_seq; [apply quiet_log|].
  intros s Hs. destruct (decide (imap_state s ≠ authenticated)).
  - now apply quiet_log_error.
  - now apply quiet_emit.
Qed.

Lemma quiet_onSearchSince err uids : quiet (onSearchSince err uids).
Proof.
  unfold onSearchSince. destruct err; [apply quiet_log_error|].
  destruct (decide (length uids = 0)); [apply quiet_log|].
  apply quiet_seq; [apply quiet_log|].
  intros s Hs. destruct (decide (imap_state s ≠ authenticated)).
  - now apply quiet_log_error.
  - now apply quiet_emit.
Qed.

Lemma quiet_onSearchUnseen err uids : quiet (onSearchUnseen err uids).
Proof.
  unfold onSearchUnseen. destruct err; [apply quiet_log_error|].
  destruct (decide (length uids = 0)); [apply quiet_skip | now apply quiet_emit].
Qed.

Lemma quiet_onParsed phase err parsedMail : quiet (onParsed phase err parsedMail).
Proof.
  unfold onParsed. destruct err; [apply quiet_log_error|].
  destruct parsedMail; [|apply quiet_skip].
  intros s Hs. split; [exact Hs | no_noop].
Qed.

(** Every event but a successful [openBox] callback leaves an empty
    timer table empty and sends no NOOP. *)
Lemma quiet_step tza ev : inbox_opened ev = false -> quiet (step tza ev).
Proof.
  destruct ev as [now ev]. unfold inbox_opened. cbn [snd]. intros Hev s Hs.
  unfold step. destruct (halted s); [split; [exact Hs | no_noop]|].
  cbn [fst snd]. destruct ev; cbn [dispatch].
  - now apply quiet_set_imap_state.
  - revert s Hs. apply quiet_seq; [apply quiet_set_imap_state|].
    intros s Hs. apply quiet_seq; [apply quiet_take_ready_listeners| |exact Hs].
    apply quiet_times, quiet_onReady.
  - revert Hs. apply quiet_times. unfold onError. apply quiet_log_error.
  - revert s Hs. apply quiet_seq; [apply quiet_set_imap_state|].
    intros s Hs. revert Hs. apply quiet_times, quiet_onClose.
  - revert Hs. apply quiet_times, quiet_onMail.
  - destruct err; [|discriminate]. now apply quiet_uncaught.
  - now apply quiet_onSearchSince.
  - now apply quiet_onSearchUnseen.
  - now apply quiet_onParsed.
  - unfold onFetchError. now apply quiet_log_error.
  - unfold onFetchEnd. now apply quiet_log.
  - unfold armed. rewrite Hs. cbn. rewrite bool_decide_eq_false_2 by apply not_elem_of_nil.
    now apply quiet_skip.
  - destruct (armed timer (timeouts s)); [|now apply quiet_skip].
    revert Hs. apply quiet_seq; [apply quiet_clearTimeout|].
    unfold onReconnect. apply quiet_seq; [apply quiet_log | now apply quiet_emit].
Qed.

Lemma quiet_run_events tza evs :
  forallb (fun ev => negb (inbox_opened ev)) evs = true ->
  forall s, intervals s = [] ->
    intervals (run_events tza evs s).1 = [] /\ Noop ∉ commands (run_events tza evs s).2.
Proof.
  induction evs as [|ev rest IH]; intros Hall s Hs.
  - split; [exact Hs | no_noop].
  - cbn [forallb] in Hall. apply andb_prop in Hall as [Hev Hrest].
    apply negb_true_iff in Hev.
    destruct (quiet_step tza ev Hev s Hs) as [I1 N1].
    cbn [run_events]. destruct (step tza ev s) as [s1 e1]. cbn [fst snd] in *.
    destruct (IH Hrest s1 I1) as [I2 N2].
    destruct (run_events tza rest s1) as [s2 e2]. cbn [fst snd] in *.
    split; [exact I2|]. rewrite commands_app.
    intros [H|H]%elem_of_app; [now apply N1 | now apply N2].
Qed.

End Quiet.

Section Invariant.

Local Opaque JsDate.isoDate JsDate.setDate JsDate.getDate.

Ltac keep_fields :=
  let s := fresh "s" in
  intros s; destruct s; unfold Inv, timers_wf; cbn; intros [? ?]; split; assumption.

Lemma keeps_log f : keeps (log f).
Proof. keep_fields. Qed.

Lemma keeps_log_error f e : keeps (log_error f e).
Proof. keep_fields. Qed.

Lemma keeps_emit e : keeps (emit e).
Proof. intros s Hs. exact Hs. Qed.

Lemma keeps_set_imap_state st : keeps (set_imap_state st).
Proof. keep_fields. Qed.

Lemma keeps_setTimeout delay : keeps (setTimeout delay).
Proof. keep_fields. Qed.

Lemma keeps_clearTimeout timer : keeps (clearTimeout timer).
Proof. keep_fields. Qed.

Lemma keeps_add_mail_listener : keeps add_mail_listener.
Proof. keep_fields. Qed.

Lemma keeps_take_ready_listeners : keeps take_ready_listeners.
Proof. keep_fields. Qed.

Lemma keeps_uncaught e : keeps (uncaught e).
Proof. keep_fields. Qed.

(** With the invariant, cancelling the keep-alive timer leaves no
    interval timer armed. *)
Lemma cleared s : timers_wf s -> intervals (clearKeepAlive s).1 = [].
Proof.
  intros Hwf. unfold clearKeepAlive.
  destruct (keepAliveInterval s) as [timer|] eqn:Hk.
  - destruct s; cbn in *. apply elem_of_nil_inv. intros p Hp.
    apply list_elem_of_filter in Hp as [Hne Hin].
    specialize (Hwf p Hin). cbn in Hwf. congruence.
  - cbn. apply elem_of_nil_inv. intros p Hp.
    specialize (Hwf p Hp). congruence.
Qed.

Lemma keeps_clearKeepAlive : keeps clearKeepAlive.
Proof.
  intros s [Hc Hwf]. pose proof (cleared s Hwf) as Hnil.
  split.
  - unfold clearKeepAlive. destruct (keepAliveInterval s); destruct s; exact Hc.
  - intros p Hp. rewrite Hnil in Hp. now apply elem_of_nil in Hp.
Qed.

(** Cancelling and re-arming in one go keeps the invariant. *)
Lemma keeps_rearm delay : keeps (seq clearKeepAlive (setKeepAliveInterval delay)).
Proof.
  intros s [Hc Hwf]. rewrite seq_unfold.
  pose proof (keeps_clearKeepAlive s (conj Hc Hwf)) as [Hc1 Hwf1].
  pose proof (cleared s Hwf) as Hnil.
  destruct (halted (clearKeepAlive s).1); [now split|].
  cbn [fst]. destruct (clearKeepAlive s).1; cbn in *. split; [exact Hc1|].
  intros p Hp. cbn in Hp. subst. apply list_elem_of_singleton in Hp. now subst p.
Qed.

Lemma keeps_onClose : keeps onClose.
Proof.
  unfold onClose.
  repeat apply keeps_seq;
    auto using keeps_log, keeps_clearKeepAlive, keeps_setTimeout.
Qed.

Lemma keeps_onOpenBox tza now err : keeps (onOpenBox tza now err).
Proof.
  unfold onOpenBox. destruct err; [apply keeps_uncaught|].
  apply keeps_seq; [apply keeps_log|].
  apply keeps_seq; [apply keeps_emit|].
  apply keeps_seq; [|apply keeps_rearm].
  unfold listenForNewEmails.
  apply keeps_seq; [apply keeps_log | apply keeps_add_mail_listener].
Qed.

Lemma pure_log f : pure (log f).
Proof. now intros s. Qed.

Lemma pure_log_error f e : pure (log_error f e).
Proof. now intros s. Qed.

Lemma pure_emit e : pure (emit e).
Proof. now intros s. Qed.

Lemma pure_onMail n : pure (onMail n).
Proof.
  unfold onMail. apply pure_seq; [apply pure_log|].
  intros s. now destruct (decide (imap_state s ≠ authenticated)).
Qed.

Lemma pure_onSearchSince err uids : pure (onSearchSince err uids).
Proof.
  unfold onSearchSince. destruct err; [apply pure_log_error|].
  destruct (decide (length uids = 0)); [apply pure_log|].
  apply pure_seq; [apply pure_log|].
  intros s. now destruct (decide (imap_state s ≠ authenticated)).
Qed.

Lemma pure_onSearchUnseen err uids : pure (onSearchUnseen err uids).
Proof.
  unfold onSearchUnseen. destruct err; [apply pure_log_error|].
  now destruct (decide (length uids = 0)).
Qed.

Lemma pure_onParsed phase err parsedMail : pure (onParsed phase err parsedMail).
Proof.
  unfold onParsed. destruct err; [apply pure_log_error|]. now destruct parsedMail.
Qed.

Lemma pure_keepAliveTick : pure keepAliveTick.
Proof.
  intros s. unfold keepAliveTick.
  destruct (decide (imap_state s = authenticated)); [|reflexivity].
  apply pure_seq; [apply pure_log | apply pure_emit].
Qed.

Lemma keeps_step tza ev : keeps (step tza ev).
Proof.
  destruct ev as [now ev]. intros s Hs. unfold step.
  destruct (halted s); [exact Hs|]. cbn [fst snd].
  destruct ev; cbn [dispatch].
  - now apply keeps_set_imap_state.
  - revert s Hs. apply keeps_seq; [apply keeps_set_imap_state|].
    intros s Hs. apply keeps_seq; [apply keeps_take_ready_listeners| |exact Hs].
    apply keeps_times. unfold onReady.
    apply keeps_seq; [apply keeps_log | apply keeps_emit].
  - revert Hs. apply keeps_times. unfold onError. apply keeps_log_error.
  - revert s Hs. apply keeps_seq; [apply keeps_set_imap_state|].
    intros s Hs. revert Hs. apply keeps_times, keeps_onClose.
  - revert Hs. apply keeps_times, pure_keeps, pure_onMail.
  - now apply keeps_onOpenBox.
  - apply pure_keeps; [apply pure_onSearchSince | exact Hs].
  - apply pure_keeps; [apply pure_onSearchUnseen | exact Hs].
  - apply pure_keeps; [apply pure_onParsed | exact Hs].
  - unfold onFetchError. now apply keeps_log_error.
  - unfold onFetchEnd. now apply keeps_log.
  - destruct (armed timer (intervals s)); [|exact Hs].
    apply pure_keeps; [apply pure_keepAliveTick | exact Hs].
  - destruct (armed timer (timeouts s)); [|exact Hs].
    revert Hs. apply keeps_seq; [apply keeps_clearTimeout|].
    unfold onReconnect. apply keeps_seq; [apply keeps_log | apply keeps_emit].
Qed.

Lemma keeps_run_events tza evs s : Inv s -> Inv (run_events tza evs s).1.
Proof.
  revert s. induction evs as [|ev rest IH]; intros s Hs; [exact Hs|].
  cbn [run_events]. pose proof (keeps_step tza ev s Hs) as H1.
  destruct (step tza ev s) as [s1 e1]. cbn [fst] in H1.
  specialize (IH s1 H1). destruct (run_events tza rest s1). exact IH.
Qed.

(** Every state a started service reaches satisfies the invariant. *)
Lemma Inv_boot tza config evs : Inv (boot tza config evs).1.
Proof.
  unfold boot. apply keeps_run_events. split; [reflexivity|].
  intros p Hp. cbn in Hp. now apply elem_of_nil in Hp.
Qed.

End Invariant.

End SupFacts.

Section SupervisorSteps.

Import ImapService Sup SupFacts.

Local Opaque JsDate.isoDate JsDate.setDate JsDate.getDate.

(** The successful [openBox] callback, run on a live service. *)
Lemma onOpenBox_run tza now s :
  halted s = false ->
  step tza (now, OpenBoxDone None) s =
    (mk (accountConfig s) (imap_state s) (Some (next_timer s)) (error_listeners s)
        (close_listeners s) (ready_once_listeners s) (S (mail_listeners s))
        ((next_timer s, 300000%Z) :: intervals (clearKeepAlive s).1)
        (timeouts s) (S (next_timer s)) false,
     [Console (Log (tag s +:+ "INBOX opened. Starting initial fetch..."));
      Cmd (Search [SINCE (JsDate.isoDate
                            (JsDate.setDate tza now (JsDate.getDate tza now - 1)))]);
      Console (Log (tag s +:+ "Entering IDLE mode for real-time updates."))]).
Proof.
  intros Hh. destruct s; cbn in Hh; subst. unfold step. cbn [halted fst snd dispatch].
  destruct keepAliveInterval0; reflexivity.
Qed.

(** The 'close' event, run on a live service with its one close listener. *)
Lemma close_run tza now s :
  halted s = false ->
  close_listeners s = 1 ->
  step tza (now, Close) s =
    (mk (accountConfig s) disconnected (keepAliveInterval s) (error_listeners s)
        (close_listeners s) (ready_once_listeners s) (mail_listeners s)
        (intervals (clearKeepAlive s).1)
        ((next_timer s, 10000%Z) :: timeouts s) (S (next_timer s)) false,
     [Console (Log (tag s +:+ "Connection closed."));
      Console (Log (tag s +:+ "Reconnecting in 10 seconds..."))]).
Proof.
  intros Hh Hc. destruct s; cbn in Hh, Hc; subst. unfold step. cbn [halted fst snd dispatch].
  destruct keepAliveInterval0; reflexivity.
Qed.

(** An interval timer firing, on a live service. *)
Lemma interval_run tza now timer s :
  halted s = false ->
  step tza (now, IntervalFired timer) s =
    (s, if armed timer (intervals s) && bool_decide (imap_state s = authenticated)
        then [Console (Log (tag s +:+ "Sending keep-alive NOOP.")); Cmd Noop]
        else []).
Proof.
  intros Hh. destruct s; cbn in Hh; subst. unfold step. cbn [halted fst snd dispatch intervals].
  destruct (armed timer intervals0); cbn [andb]; [|reflexivity].
  unfold keepAliveTick. cbn [imap_state]. case_bool_decide as Ha.
  - rewrite decide_True by exact Ha. reflexivity.
  - rewrite decide_False by exact Ha. reflexivity.
Qed.

(** One parser callback, on a live service. *)
Lemma parsed_run tza now phase err parsedMail s :
  halted s = false ->
  step tza (now, Parsed phase err parsedMail) s =
    (s, match err with
        | Some e => [Console (LogError (parse_error_line (id (accountConfig s)) phase e).1
                                       (Js.message e))]
        | None => match parsedMail with
                  | Some m => [Handoff m (id (accountConfig s))]
                  | None => []
                  end
        end).
Proof.
  intros Hh. unfold step. rewrite Hh. cbn [fst snd dispatch].
  destruct err as [e|]; [|destruct parsedMail]; reflexivity.
Qed.

(** A whole batch of parser callbacks, on a live service. *)
Lemma batch_run tza phase batch s :
  halted s = false ->
  let r := run_events tza (parsed_events phase batch) s in
  r.1 = s /\
  commands r.2 = [] /\
  handoffs r.2 = map (fun m => (m, id (accountConfig s))) (decoded batch) /\
  errors r.2 = map (parse_error_line (id (accountConfig s)) phase) (failed batch).
Proof.
  intros Hh. induction batch as [|d rest IH]; [now repeat split|].
  cbn [parsed_events map run_events]. rewrite parsed_run by exact Hh.
  fold (parsed_events phase rest).
  destruct (run_events tza (parsed_events phase rest) s) as [s2 e2].
  cbn [fst snd] in *. destruct IH as (I1 & I2 & I3 & I4).
  rewrite commands_app, handoffs_app, errors_app, I2, I3, I4.
  unfold decoded, failed. destruct d as [t0 [e|] m]; [|destruct m]; cbn;
    repeat split; try assumption; reflexivity.
Qed.

End SupervisorSteps.

Section SupervisorClaims.

Import ImapService Sup SupFacts.

Local Opaque JsDate.isoDate JsDate.setDate JsDate.getDate.


(** C4. The backfill fetch carries no markSeen option, which the
    connection treats as false, and leaves the server's seen flags as they
    were; the fetch of the live watch carries markSeen true, so every
    fetched id is flagged seen by the server when the fetch is served,
    whatever the decoding of the messages does afterwards. *)
Theorem fetch_read_state tza now uids seen s :
  halted s = false ->
  imap_state s = authenticated ->
  uids <> [] ->
  let backfill := commands (step tza (now, SearchSinceDone None uids) s).2 in
  let live := commands (step tza (now, SearchUnseenDone None uids) s).2 in
  backfill = [Fetch uids (mkFetchOptions EmptyString None)] /\
  Mailbox.marks_seen (mkFetchOptions EmptyString None) = false /\
  live = [Fetch uids (mkFetchOptions EmptyString (Some true))] /\
  (forall batch,
     Mailbox.serve_all
       (backfill ++ commands (run_events tza (parsed_events Initial batch) s).2) seen = seen) /\
  (forall batch u,
     u ∈ uids ->
     u ∈ Mailbox.serve_all
           (live ++ commands (run_events tza (parsed_events Live batch) s).2) seen).
Proof.
  intros Hh Ha Hu backfill live.
  assert (Hlen : length uids <> 0) by (destruct uids; [congruence | discriminate]).
  assert (Hb : backfill = [Fetch uids (mkFetchOptions EmptyString None)]).
  { unfold backfill, step. rewrite Hh. cbn [fst snd dispatch]. unfold onSearchSince.
    rewrite decide_False by exact Hlen. rewrite seq_unfold. cbn [log fst snd].
    rewrite Hh. rewrite decide_False by (intros Hn; now apply Hn). reflexivity. }
  assert (Hl : live = [Fetch uids (mkFetchOptions EmptyString (Some true))]).
  { unfold live, step. rewrite Hh. cbn [fst snd dispatch]. unfold onSearchUnseen.
    rewrite decide_False by exact Hlen. reflexivity. }
  split; [exact Hb|]. split; [reflexivity|]. split; [exact Hl|]. split.
  - intros batch. destruct (batch_run tza Initial batch s Hh) as (_ & Hc & _).
    rewrite Hc, Hb. reflexivity.
  - intros batch u Hin. destruct (batch_run tza Live batch s Hh) as (_ & Hc & _).
    rewrite Hc, Hl. cbn. apply elem_of_union. right. now apply elem_of_list_to_set.
Qed.

(** C7. In a fetched batch in which one message fails to decode, the
    failure is logged and that message is skipped; every other message of
    the batch is decoded and handed off as if the failing one were not
    there, no command is sent, and the service, its connection state
    included, is as it was before the batch. *)
Theorem decode_failure_skips_one tza phase before bad after e s :
  halted s = false ->
  failure bad = Some e ->
  let r := run_events tza (parsed_events phase (before ++ bad :: after)) s in
  r.1 = s /\
  imap_state r.1 = imap_state s /\
  commands r.2 = [] /\
  handoffs r.2 = map (fun m => (m, id (accountConfig s))) (decoded before ++ decoded after) /\
  errors r.2 = map (parse_error_line (id (accountConfig s)) phase)
                   (failed before ++ e :: failed after).
Proof.
  intros Hh He r.
  destruct (batch_run tza phase (before ++ bad :: after) s Hh) as (H1 & H2 & H3 & H4).
  fold r in H1, H2, H3, H4.
  split; [exact H1|]. split; [now rewrite H1|]. split; [exact H2|]. split.
  - rewrite H3. f_equal. unfold decoded. rewrite omap_app. cbn [omap list_omap].
    now rewrite He.
  - rewrite H4. f_equal. unfold failed. rewrite omap_app. cbn [omap list_omap].
    now rewrite He.
Qed.

(** C9. In every state a started service reaches: when the inbox has been
    opened the keep-alive timer is the one armed interval timer, with a
    period of 300000 ms; a tick sends NOOP only if the timer is armed and
    the connection is authenticated, and otherwise does nothing; the close
    event leaves no interval timer armed; and from then on, until an inbox
    is opened again, no NOOP is sent whatever happens. *)
Theorem keep_alive_lifecycle tza config pre now :
  let s := (boot tza config pre).1 in
  halted s = false ->
  (exists timer,
     keepAliveInterval (step tza (now, OpenBoxDone None) s).1 = Some timer /\
     intervals (step tza (now, OpenBoxDone None) s).1 = [(timer, 300000%Z)]) /\
  (forall timer,
     (step tza (now, IntervalFired timer) s).1 = s /\
     commands (step tza (now, IntervalFired timer) s).2 =
       if armed timer (intervals s) && bool_decide (imap_state s = authenticated)
       then [Noop] else []) /\
  intervals (step tza (now, Close) s).1 = [] /\
  (forall post,
     forallb (fun ev => negb (inbox_opened ev)) post = true ->
     Noop ∉ commands (run_events tza post (step tza (now, Close) s).1).2).
Proof.
  intros s Hh. destruct (Inv_boot tza config pre) as [Hc Hwf]. fold s in Hc, Hwf.
  pose proof (cleared s Hwf) as Hnil.
  assert (Hclose : intervals (step tza (now, Close) s).1 = []).
  { rewrite close_run by assumption. exact Hnil. }
  split; [|split; [|split]].
  - exists (next_timer s). rewrite onOpenBox_run by exact Hh. cbn [fst keepAliveInterval intervals].
    now rewrite Hnil.
  - intros timer. rewrite interval_run by exact Hh. cbn [fst snd].
    split; [reflexivity|].
    now destruct (armed timer (intervals s) && bool_decide (imap_state s = authenticated)).
  - exact Hclose.
  - intros post Hpost. now apply quiet_run_events.
Qed.

End SupervisorClaims.



(** The evening after summer time ended the step is 25 hours: at 00:30 UTC
    on 2 November 2026 the search is SINCE 31 October. *)
Example backfill_two_days_in_new_york :
  ImapService.commands
    (ImapService.fetchInitialEmails JsDate.new_york_2026 1793579400000
       (ImapService.new Sample.account)).2
  = [ImapService.Search [ImapService.SINCE "2026-10-31"]].
Proof. vm_compute. reflexivity. Qed.

(** Thirty days back would have been 3 October 2026. *)
Example thirty_days_back_is_another_date :
  JsDate.isoDate (1793577600000 - 30 * JsDate.msPerDay) = "2026-10-03".
Proof. vm_compute. reflexivity. Qed.

(** Ids 7 and 8 fetched by the live watch while the second message fails
    to decode: 8 is seen afterwards; fetched by the backfill, nothing is. *)
Lemma fetch_read_state_witness :
  8%N ∈ Mailbox.serve_all
    (ImapService.commands
       (ImapService.step JsDate.utc (1793577600600%Z, ImapService.SearchUnseenDone None [7%N; 8%N])
          Sample.watching).2 ++
     ImapService.commands
       (ImapService.run_events JsDate.utc (Sup.parsed_events ImapService.Live Sample.batch)
          Sample.watching).2) ∅
  /\
  Mailbox.serve_all
    (ImapService.commands
       (ImapService.step JsDate.utc (1793577600600%Z, ImapService.SearchSinceDone None [7%N; 8%N])
          Sample.watching).2 ++
     ImapService.commands
       (ImapService.run_events JsDate.utc (Sup.parsed_events ImapService.Initial Sample.batch)
          Sample.watching).2) ∅ = ∅.
Proof.
  pose proof (fetch_read_state JsDate.utc 1793577600600 [7%N; 8%N] ∅ Sample.watching
                eq_refl eq_refl ltac:(discriminate)) as H.
  cbv zeta in H. destruct H as (_ & _ & _ & Hb & Hl).
  split; [|exact (Hb Sample.batch)].
  apply (Hl Sample.batch 8%N). apply elem_of_cons. right. apply elem_of_cons. now left.
Defined.

(** The sample batch: the first and third message are handed off, the
    second is logged, the service is untouched. *)
Lemma decode_failure_skips_one_witness :
  let r := ImapService.run_events JsDate.utc (Sup.parsed_events ImapService.Live Sample.batch)
             Sample.watching in
  r.1 = Sample.watching /\
  ImapService.handoffs r.2 = [(Sample.mail, "acct1"); (Sample.headerless, "acct1")] /\
  ImapService.errors r.2 = [("[acct1] Error parsing new email:", "Unexpected end of stream")].
Proof.
  pose proof (decode_failure_skips_one JsDate.utc ImapService.Live
                [Sup.mkDecode 1793577600900 None (Some Sample.mail)] Sample.broken
                [Sup.mkDecode 1793577601100 None (Some Sample.headerless)]
                (Js.mkError "Unexpected end of stream") Sample.watching
                eq_refl eq_refl) as H.
  cbv zeta in H. destruct H as (H1 & _ & _ & H4 & H5).
  intros r. split; [exact H1|]. split; [exact H4 | exact H5].
Defined.

(** The sample service: its timer is armed with 300000 ms, and after the
    connection closes a tick of that timer sends nothing. *)
Lemma keep_alive_lifecycle_witness :
  ImapService.intervals Sample.watching = [(0, 300000%Z)] /\
  ImapService.intervals
    (ImapService.step JsDate.utc (1793577900000%Z, ImapService.Close) Sample.watching).1 = [] /\
  ImapService.Noop ∉
    ImapService.commands
      (ImapService.run_events JsDate.utc [(1793577900500%Z, ImapService.IntervalFired 0)]
         (ImapService.step JsDate.utc (1793577900000%Z, ImapService.Close) Sample.watching).1).2.
Proof.
  pose proof (keep_alive_lifecycle JsDate.utc Sample.account
                [(1793577600000%Z, ImapService.Ready);
                 (1793577600500%Z, ImapService.OpenBoxDone None)]
                1793577900000 eq_refl) as H.
  cbv zeta in H. destruct H as (_ & _ & H3 & H4).
  split; [reflexivity|]. split; [exact H3|].
  exact (H4 [(1793577900500%Z, ImapService.IntervalFired 0)] eq_refl).
Defined.

(* ===================================================================== *)
(* Properties of startup                                                  *)
(* ===================================================================== *)

Section Startup.

Import App.

Lemma exits_app e1 e2 : exits (e1 ++ e2) = exits e1 || exits e2.
Proof. apply existsb_app. Qed.

Lemma listens_app e1 e2 : listens (e1 ++ e2) = listens e1 || listens e2.
Proof. apply existsb_app. Qed.

Lemma services_app e1 e2 : services (e1 ++ e2) = (services e1 ++ services e2)%list.
Proof. apply omap_app. Qed.

(** When [initialize] finishes it has neither ended the process nor
    started anything. *)
Lemma initialize_done w effects :
  initialize w = (effects, Done) ->
  exits effects = false /\ listens effects = false /\ services effects = [].
Proof.
  unfold initialize.
  destruct (es_ping w); [discriminate|].
  destruct (es_indices_exists w) as [[|]|]; [| |discriminate].
  - intros [= <-]. now repeat split.
  - destruct (es_indices_create w); [discriminate|]. intros [= <-]. now repeat split.
Qed.

(** How [initialize] ends when it does not finish: the process has exited
    and nothing has been started. *)
Lemma initialize_exited w effects :
  initialize w = (effects, Exited) ->
  exits effects = true /\ listens effects = false /\ services effects = [].
Proof.
  unfold initialize.
  destruct (es_ping w); [intros [= <-]; now repeat split|].
  destruct (es_indices_exists w) as [[|]|]; [discriminate| |intros [= <-]; now repeat split].
  destruct (es_indices_create w); [intros [= <-]; now repeat split | discriminate].
Qed.

(** C3 (as amended). An accounts variable that is present but does not
    parse is not fatal by itself. When the store initialized, startup goes
    on: the parse failure is logged, no account service is started, the API
    server is started and the process does not exit. The process exits
    without starting the API server only when the initialization of the
    store failed, and then before the accounts variable is looked at. *)
Theorem malformed_accounts_not_fatal w imapAccountsConfig error :
  IMAP_ACCOUNTS w = Some imapAccountsConfig ->
  Js.truthy imapAccountsConfig = true ->
  JSON_parse w imapAccountsConfig = Throw error ->
  (forall effects, initialize w = (effects, Done) ->
     startApp w =
       (effects ++ [parseFailed error; Listen (Js.or_else (PORT w) "3000");
                    AppConsole (Log ("API Server running at http://localhost:"
                                     +:+ Js.or_else (PORT w) "3000"))])%list /\
     exits (startApp w) = false /\
     listens (startApp w) = true /\
     services (startApp w) = []) /\
  (forall effects, initialize w = (effects, Exited) ->
     startApp w = effects /\
     exits (startApp w) = true /\
     listens (startApp w) = false /\
     services (startApp w) = []) /\
  (forall effects outcome, initialize w = (effects, outcome) -> outcome = Done \/ outcome = Exited).
Proof.
  intros Ha Ht Hp. split; [|split].
  - intros effects Hi. destruct (initialize_done w effects Hi) as (He & Hl & Hs).
    assert (Hrun : startApp w =
      (effects ++ [parseFailed error; Listen (Js.or_else (PORT w) "3000");
                   AppConsole (Log ("API Server running at http://localhost:"
                                    +:+ Js.or_else (PORT w) "3000"))])%list).
    { unfold startApp, startAccounts. now rewrite Hi, Ha, Ht, Hp. }
    split; [exact Hrun|]. rewrite Hrun, exits_app, listens_app, services_app, He, Hl, Hs.
    now repeat split.
  - intros effects Hi. destruct (initialize_exited w effects Hi) as (He & Hl & Hs).
    assert (Hrun : startApp w = effects) by (unfold startApp; now rewrite Hi).
    rewrite Hrun. now repeat split.
  - intros effects outcome. unfold initialize.
    destruct (es_ping w); [intros [= _ <-]; now right|].
    destruct (es_indices_exists w) as [[|]|];
      [intros [= _ <-]; now left | | intros [= _ <-]; now right].
    destruct (es_indices_create w); intros [= _ <-]; [now right | now left].
Qed.

End Startup.

(** C3, counterexample. With an accounts variable that is not JSON the
    process does not exit and the API server is started. *)
Lemma malformed_accounts_still_listens :
  Sample.parse "{id: acct1" = Throw (Js.mkError "SyntaxError: Unexpected token") /\
  App.exits (App.startApp Sample.malformed_accounts) = false /\
  App.listens (App.startApp Sample.malformed_accounts) = true.
Proof. vm_compute. now repeat split. Qed.

Lemma malformed_accounts_not_fatal_witness :
  App.exits (App.startApp Sample.malformed_accounts) = false /\
  App.listens (App.startApp Sample.malformed_accounts) = true /\
  App.services (App.startApp Sample.malformed_accounts) = [].
Proof.
  pose proof (malformed_accounts_not_fatal Sample.malformed_accounts "{id: acct1"
                (Js.mkError "SyntaxError: Unexpected token") eq_refl eq_refl eq_refl) as H.
  destruct H as (H & _). exact (proj2 (H _ eq_refl)).
Defined.

(** An array whose second item is null: the first account has been
    started by the time the failure is caught, and startup goes on. *)
Example partial_account_list :
  let w := App.mkWorld (Some "[{...}, null]") None
             (fun _ => Return (App.JArray [Some Sample.account; None]))
             None (Return true) None in
  length (App.services (App.startApp w)) = 1 /\
  App.listens (App.startApp w) = true /\
  App.exits (App.startApp w) = false.
Proof. vm_compute. now repeat split. Qed.

(** A store that cannot be reached at startup ends the process before
    any account is looked at. *)
Example store_down_is_fatal :
  let w := App.mkWorld (Some "[]") None Sample.parse
             (Some (Js.mkError "ECONNREFUSED")) (Return true) None in
  App.exits (App.startApp w) = true /\ App.listens (App.startApp w) = false.
Proof. vm_compute. now repeat split. Qed.

(** The ready listener is attached with [once]: when the connection comes
    back after a close, nothing reopens the inbox and no timer is armed. *)
Example reconnect_does_not_reopen :
  let back := ImapService.run_events JsDate.utc
                [(1793577900000%Z, ImapService.Close);
                 (1793577910000%Z, ImapService.TimeoutFired 1);
                 (1793577911000%Z, ImapService.Ready)] Sample.watching in
  ImapService.commands back.2 = [ImapService.Connect] /\
  ImapService.imap_state back.1 = ImapService.authenticated /\
  ImapService.intervals back.1 = [].
Proof. vm_compute. now repeat split. Qed.

(* ===================================================================== *)
(* Further properties of the indexing pipeline                            *)
(* ===================================================================== *)

Section PipelineMore.

Variable svc : NotificationService.t.

Lemma or_else_truthy x d : Js.truthy d = true -> Js.truthy (Js.or_else x d) = true.
Proof.
  intros Hd. unfold Js.or_else. destruct x as [s|]; [|exact Hd].
  destruct (Js.truthy s) eqn:Hs; [exact Hs | exact Hd].
Qed.

Lemma or_else_twice x d : Js.or_else (Some (Js.or_else x d)) d = Js.or_else x d.
Proof.
  unfold Js.or_else. destruct x as [s|].
  - destruct (Js.truthy s) eqn:Hs; [now rewrite Hs|]. now destruct (Js.truthy d).
  - now destruct (Js.truthy d).
Qed.

Lemma category_in_truthy env : Js.truthy (category_in env) = true.
Proof.
  unfold category_in. destruct (ai_outcome env); [|reflexivity].
  now apply or_else_truthy.
Qed.

(** What [indexEmail] leaves behind, whether the store accepts or not. *)
Lemma indexEmail_calls env email account s :
  let document := document_in env email account in
  calls (ElasticsearchService.indexEmail svc env email account s).2 =
    (calls s ++ [ai_request email; EsIndex (messageId document) document]
       ++ match es_index env with
          | None => notify_calls svc document
          | Some _ => []
          end)%list.
Proof.
  intros document. destruct (es_index env) as [e|] eqn:Hes.
  - rewrite (indexEmail_rejected svc env email account s e Hes). cbn [snd calls].
    now rewrite app_nil_r.
  - now rewrite (indexEmail_stored svc env email account s Hes).
Qed.

Lemma notify_calls_all_notifications document :
  Forall (fun c => is_notification c = true) (notify_calls svc document).
Proof.
  unfold notify_calls, attempts. case_bool_decide; [|constructor].
  destruct (NotificationService.slackWebhook svc), (NotificationService.webhookSiteUrl svc) as [u|];
    cbn; try destruct (Js.truthy u); repeat constructor.
Qed.

(** X1. Every document [indexEmail] stores carries the account it was
    indexed for, the mail's identifier, sender and text as decoded, a
    category that is never empty, and an HTML body that is either absent or
    not empty. *)
Theorem stored_document_shape env email account s :
  es_index env = None ->
  exists document,
    docs (ElasticsearchService.indexEmail svc env email account s).2
      !! store_key env (document_in env email account) = Some document /\
    accountId document = account /\
    messageId document = pm_messageId email /\
    from document = text <$> pm_from email /\
    body document = pm_text email /\
    (exists c, aiCategory document = Some c /\ Js.truthy c = true) /\
    htmlBody document <> Some EmptyString /\
    (forall h, htmlBody document = Some h -> pm_html email = Some h).
Proof.
  intros Hes. exists (document_in env email account).
  rewrite (indexEmail_stored svc env email account s Hes). cbn [snd docs].
  split; [apply lookup_insert_eq|]. repeat split.
  - exists (category_in env). split; [reflexivity | apply category_in_truthy].
  - unfold document_in. cbn. destruct (pm_html email) as [h|]; cbn; [|discriminate].
    destruct h; cbn; discriminate.
  - intros h. unfold document_in. cbn. destruct (pm_html email) as [h'|]; cbn; [|discriminate].
    destruct (Js.truthy h'); [trivial | discriminate].
Qed.

(** X2. One [indexEmail] call changes the store at one key at most: every
    other key keeps what it held, the store grows by one document at most,
    and a rejected write leaves the store exactly as it was. *)
Theorem indexEmail_frame env email account s :
  let s' := (ElasticsearchService.indexEmail svc env email account s).2 in
  (forall k, k <> store_key env (document_in env email account) ->
     docs s' !! k = docs s !! k) /\
  size (docs s) <= size (docs s') <= S (size (docs s)) /\
  (forall e, es_index env = Some e -> docs s' = docs s).
Proof.
  intros s'. subst s'. destruct (es_index env) as [e|] eqn:Hes.
  - rewrite (indexEmail_rejected svc env email account s e Hes). cbn [snd docs].
    repeat split; try reflexivity; lia.
  - rewrite (indexEmail_stored svc env email account s Hes). cbn [snd docs].
    split; [|split].
    + intros k Hk. apply lookup_insert_ne. congruence.
    + rewrite map_size_insert. destruct (docs s !! _); cbn; lia.
    + discriminate.
Qed.

(** X3. Each [indexEmail] call sends exactly one categorization request
    and then exactly one write to the store, whatever the collaborators
    answer; anything it sends after them is a notification. The request's
    subject is the mail's subject, or No Subject when that is missing or
    empty, and so never empty. *)
Theorem indexEmail_requests env email account s :
  let document := document_in env email account in
  let subject_sent := Js.or_else (pm_subject email) "No Subject" in
  exists later,
    calls (ElasticsearchService.indexEmail svc env email account s).2 =
      (calls s ++ [AiCategorize subject_sent (Js.or_else (pm_text email) EmptyString) 10000;
                   EsIndex (pm_messageId email) document] ++ later)%list /\
    Forall (fun c => is_notification c = true) later /\
    Js.truthy subject_sent = true.
Proof.
  intros document subject_sent.
  exists (match es_index env with
          | None => notify_calls svc document
          | Some _ => []
          end).
  split; [|split].
  - rewrite indexEmail_calls. fold document. unfold ai_request. now rewrite !or_else_twice.
  - destruct (es_index env); [constructor | apply notify_calls_all_notifications].
  - now apply or_else_truthy.
Qed.

(** X4. [indexEmail] never notifies for a document it did not store or
    whose category is anything but Interested: if a call makes any
    notification request, the store accepted the write, the category was
    Interested and a sink is configured. *)
Theorem notifies_only_interested_stored env email account s :
  notifications (calls (ElasticsearchService.indexEmail svc env email account s).2)
    <> notifications (calls s) ->
  es_index env = None /\
  category_in env = "Interested" /\
  (slack_configured svc = true \/ webhook_configured svc = true).
Proof.
  rewrite indexEmail_calls. unfold notifications. rewrite !List.filter_app. cbn [List.filter is_notification].
  intros Hne. destruct (es_index env) as [e|].
  { exfalso. apply Hne. cbn. now rewrite app_nil_r. }
  split; [reflexivity|]. unfold notify_calls in Hne.
  case_bool_decide as Hcat.
  - split; [now injection Hcat|].
    unfold attempts, slack_configured, webhook_configured, Js.truthy_opt in *.
    destruct (NotificationService.slackWebhook svc); [now left|].
    destruct (NotificationService.webhookSiteUrl svc) as [u|].
    + destruct (Js.truthy u); [now right|]. exfalso. apply Hne. cbn. now rewrite app_nil_r.
    + exfalso. apply Hne. cbn. now rewrite app_nil_r.
  - exfalso. apply Hne. cbn. now rewrite app_nil_r.
Qed.

(** X5. A mail without a message identifier is written without an id, so
    the store files it under an id of its own: indexing it twice, with two
    distinct ids the store has not used, leaves two documents where
    indexing a mail with an identifier leaves one. *)
Theorem keyless_reindex_duplicates env1 env2 email account s :
  pm_messageId email = None ->
  es_index env1 = None ->
  es_index env2 = None ->
  docs s !! es_auto_id env1 = None ->
  docs s !! es_auto_id env2 = None ->
  es_auto_id env1 <> es_auto_id env2 ->
  let s1 := (ElasticsearchService.indexEmail svc env1 email account s).2 in
  let s2 := (ElasticsearchService.indexEmail svc env2 email account s1).2 in
  docs s2 !! es_auto_id env1 = Some (document_in env1 email account) /\
  docs s2 !! es_auto_id env2 = Some (document_in env2 email account) /\
  size (docs s2) = S (S (size (docs s))).
Proof.
  intros Hid H1 H2 F1 F2 Hne s1 s2. subst s2 s1.
  rewrite (indexEmail_stored svc env1 email account s H1).
  rewrite (indexEmail_stored svc env2 email account _ H2). cbn [snd docs].
  assert (K1 : store_key env1 (document_in env1 email account) = es_auto_id env1).
  { unfold store_key, document_in. cbn. now rewrite Hid. }
  assert (K2 : store_key env2 (document_in env2 email account) = es_auto_id env2).
  { unfold store_key, document_in. cbn. now rewrite Hid. }
  rewrite K1, K2. split; [|split].
  - rewrite lookup_insert_ne by congruence. apply lookup_insert_eq.
  - apply lookup_insert_eq.
  - rewrite map_size_insert_None.
    + now rewrite map_size_insert_None.
    + now rewrite lookup_insert_ne.
Qed.

(** X6. Indexing a mail with an identifier again changes nothing in the
    store when the AI service gives the same category and the mail carries
    its own date (or the clock reads the same). *)
Theorem reindex_same_answers_noop env1 env2 email account mid s :
  pm_messageId email = Some mid ->
  es_index env1 = None ->
  es_index env2 = None ->
  category_in env1 = category_in env2 ->
  (pm_date email <> None \/ now env1 = now env2) ->
  let s1 := (ElasticsearchService.indexEmail svc env1 email account s).2 in
  let s2 := (ElasticsearchService.indexEmail svc env2 email account s1).2 in
  docs s2 = docs s1.
Proof.
  intros Hmid H1 H2 Hcat Hdate s1 s2. subst s2 s1.
  rewrite (indexEmail_stored svc env1 email account s H1).
  rewrite (indexEmail_stored svc env2 email account _ H2). cbn [snd docs].
  assert (Hdoc : document_in env2 email account = document_in env1 email account).
  { unfold document_in, ElasticsearchService.makeDocument. rewrite Hcat. f_equal.
    destruct (pm_date email); [reflexivity|]. destruct Hdate as [H|H]; congruence. }
  rewrite Hdoc.
  assert (K : store_key env2 (document_in env1 email account)
              = store_key env1 (document_in env1 email account)).
  { unfold store_key, document_in. cbn. now rewrite Hmid. }
  rewrite K. apply insert_insert_eq.
Qed.

End PipelineMore.

(** X7. The sinks of a notification service built by the constructor are
    exactly those whose environment variable is set and not empty: it warns
    once for each of the others, and for an Interested document it contacts
    Slack only if the Slack variable is set and posts to the webhook
    variable's URL only if that is set. *)
Theorem constructor_sinks slackUrl webhookUrl document :
  let svc := (NotificationService.new slackUrl webhookUrl).1 in
  let warnings := (NotificationService.new slackUrl webhookUrl).2 in
  slack_configured svc = Js.truthy_opt slackUrl /\
  webhook_configured svc = Js.truthy_opt webhookUrl /\
  length warnings = (if Js.truthy_opt slackUrl then 0 else 1)
                    + (if Js.truthy_opt webhookUrl then 0 else 1) /\
  attempts svc document =
    ((if Js.truthy_opt slackUrl
      then [SlackSend (Js.or_else (from document) "Unknown")
                      (Js.or_else (subject document) "No Subject")]
      else []) ++
     (if Js.truthy_opt webhookUrl then [WebhookPost (Js.show webhookUrl) document] else []))%list.
Proof.
  unfold NotificationService.new, slack_configured, webhook_configured, attempts.
  destruct slackUrl as [[|c r]|], webhookUrl as [[|c' r']|]; cbn; repeat split; reflexivity.
Qed.

Lemma stored_document_shape_witness :
  exists document,
    docs (ElasticsearchService.indexEmail Sample.both_sinks (Sample.answering "Spam")
            Sample.headerless "acct1" Sample.empty).2 !! "auto-1" = Some document /\
    accountId document = "acct1" /\
    aiCategory document = Some "Spam".
Proof.
  destruct (stored_document_shape Sample.both_sinks (Sample.answering "Spam")
              Sample.headerless "acct1" Sample.empty eq_refl)
    as (document & Hl & Ha & _).
  exists document. split; [exact Hl|]. split; [exact Ha|].
  rewrite (indexEmail_stored Sample.both_sinks (Sample.answering "Spam")
             Sample.headerless "acct1" Sample.empty eq_refl) in Hl.
  cbn [snd docs] in Hl. rewrite lookup_insert_eq in Hl. now inversion Hl.
Defined.

Lemma notifies_only_interested_stored_witness :
  category_in (Sample.answering "Interested") = "Interested" /\
  slack_configured Sample.both_sinks = true.
Proof.
  assert (H : notifications
                (calls (ElasticsearchService.indexEmail Sample.both_sinks
                          (Sample.answering "Interested") Sample.mail "acct1" Sample.empty).2)
              <> notifications (calls Sample.empty)).
  { rewrite indexEmail_calls. cbn. discriminate. }
  destruct (notifies_only_interested_stored Sample.both_sinks (Sample.answering "Interested")
              Sample.mail "acct1" Sample.empty H) as (_ & Hc & _).
  split; [exact Hc | reflexivity].
Defined.

Lemma keyless_reindex_duplicates_witness :
  let env2 := mkEnv 1793577660000 (Replies 120 (Some (mkCategorizeData (Some "General"))))
                None "auto-2" None None in
  size (docs (ElasticsearchService.indexEmail Sample.both_sinks env2 Sample.headerless "acct1"
                (ElasticsearchService.indexEmail Sample.both_sinks (Sample.answering "General")
                   Sample.headerless "acct1" Sample.empty).2).2) = 2.
Proof.
  intros env2.
  exact (proj2 (proj2 (keyless_reindex_duplicates Sample.both_sinks (Sample.answering "General")
                         env2 Sample.headerless "acct1" Sample.empty
                         eq_refl eq_refl eq_refl eq_refl eq_refl ltac:(discriminate)))).
Defined.

Lemma reindex_same_answers_noop_witness :
  let s1 := (ElasticsearchService.indexEmail Sample.both_sinks (Sample.answering "General")
               Sample.mail "acct1" Sample.empty).2 in
  docs (ElasticsearchService.indexEmail Sample.both_sinks Sample.slow_ai Sample.mail "acct1" s1).2
  = docs s1.
Proof.
  assert (Hd : pm_date Sample.mail <> None \/ now (Sample.answering "General") = now Sample.slow_ai)
    by (left; discriminate).
  pose proof (reindex_same_answers_noop Sample.both_sinks (Sample.answering "General")
                Sample.slow_ai Sample.mail "acct1" "<m1@example.test>" Sample.empty
                eq_refl eq_refl eq_refl eq_refl Hd) as H.
  exact H.
Defined.

(* ===================================================================== *)
(* Further properties of the supervisor                                   *)
(* ===================================================================== *)

Section SupervisorRuns.

Import ImapService Sup SupFacts Trace.

Local Opaque JsDate.isoDate JsDate.setDate JsDate.getDate.

(** A handler that changes nothing and does not depend on being run
    before: run [n] times, it repeats its effects [n] times. *)
Lemma times_pure h (f : t -> list Effect) :
  (forall s, halted s = false -> h s = (s, f s)) ->
  forall n s, halted s = false -> times n h s = (s, concat (replicate n (f s))).
Proof.
  intros Hh n. induction n as [|n IH]; intros s Hs; [reflexivity|].
  cbn [times replicate concat]. rewrite seq_unfold, (Hh s Hs). cbn [fst snd].
  rewrite Hs, (IH s Hs). reflexivity.
Qed.

Lemma onReady_pure s : halted s = false -> onReady s = (s, ready_effects s).
Proof.
  intros Hs. unfold onReady. rewrite seq_unfold. cbn [log fst snd]. now rewrite Hs.
Qed.

Lemma onMail_pure n s : halted s = false -> onMail n s = (s, mail_effects n s).
Proof.
  intros Hs. unfold onMail. rewrite seq_unfold. cbn [log fst snd]. rewrite Hs.
  unfold mail_effects. now destruct (decide (imap_state s ≠ authenticated)).
Qed.

(** The 'ready' event on a live service. *)
Lemma ready_run tza now s :
  halted s = false ->
  step tza (now, Ready) s =
    (mk (accountConfig s) authenticated (keepAliveInterval s) (error_listeners s)
        (close_listeners s) 0 (mail_listeners s) (intervals s) (timeouts s)
        (next_timer s) false,
     concat (replicate (ready_once_listeners s) (ready_effects s))).
Proof.
  intros Hh. destruct s; cbn in Hh; subst. unfold step. cbn [halted fst snd dispatch].
  rewrite seq_unfold. cbn [set_imap_state fst snd halted ready_once_listeners].
  rewrite seq_unfold. cbn [take_ready_listeners fst snd halted].
  rewrite (times_pure onReady ready_effects onReady_pure) by reflexivity.
  reflexivity.
Qed.

(** The 'mail' event on a live service. *)
Lemma mail_run tza now n s :
  halted s = false ->
  step tza (now, Mail n) s = (s, concat (replicate (mail_listeners s) (mail_effects n s))).
Proof.
  intros Hh. unfold step. rewrite Hh. cbn [fst snd dispatch].
  now apply (times_pure (onMail n) (mail_effects n) (onMail_pure n)).
Qed.

(** The 'error' event on a live service. *)
Lemma error_run tza now e s :
  halted s = false ->
  step tza (now, Error e) s =
    (s, concat (replicate (error_listeners s)
                  [Console (LogError (tag s +:+ "IMAP Error:") (Js.message e))])).
Proof.
  intros Hh. unfold step. rewrite Hh. cbn [fst snd dispatch].
  apply (times_pure (onError e)
           (fun s => [Console (LogError (tag s +:+ "IMAP Error:") (Js.message e))])); [|exact Hh].
  reflexivity.
Qed.

(** A one-shot timer firing on a live service. *)
Lemma timeout_run tza now timer s :
  halted s = false ->
  step tza (now, TimeoutFired timer) s =
    if armed timer (timeouts s)
    then (mk (accountConfig s) (imap_state s) (keepAliveInterval s) (error_listeners s)
             (close_listeners s) (ready_once_listeners s) (mail_listeners s) (intervals s)
             (filter (fun p => p.1 ≠ timer) (timeouts s)) (next_timer s) false,
          [Console (Log (tag s +:+ "Attempting to reconnect...")); Cmd Connect])
    else (s, []).
Proof.
  intros Hh. destruct s; cbn in Hh; subst. unfold step. cbn [halted fst snd dispatch timeouts].
  destruct (armed timer timeouts0); reflexivity.
Qed.

(** The failed [openBox] callback on a live service. *)
Lemma openBox_failed_run tza now e s :
  halted s = false ->
  step tza (now, OpenBoxDone (Some e)) s =
    (mk (accountConfig s) (imap_state s) (keepAliveInterval s) (error_listeners s)
        (close_listeners s) (ready_once_listeners s) (mail_listeners s) (intervals s)
        (timeouts s) (next_timer s) true,
     [Uncaught e]).
Proof. intros Hh. unfold step. now rewrite Hh. Qed.

(** The callback of the backfill search on a live service. *)
Lemma since_run tza now err uids s :
  halted s = false ->
  step tza (now, SearchSinceDone err uids) s =
    (s, match err with
        | Some e => [Console (LogError (tag s +:+ "Error searching emails:") (Js.message e))]
        | None =>
            if decide (length uids = 0)
            then [Console (Log (tag s +:+ "No new emails in the last 30 days."))]
            else Console (Log (tag s +:+ "Found " +:+ pretty (length uids) +:+ " emails to fetch."))
                 :: (if decide (imap_state s ≠ authenticated)
                     then [Console (LogError
                                      (tag s +:+ "Not authenticated. Fetch aborted. Reconnect will handle.")
                                      EmptyString)]
                     else [Cmd (Fetch uids (mkFetchOptions EmptyString None))])
        end).
Proof.
  intros Hh. unfold step. rewrite Hh. cbn [fst snd dispatch]. unfold onSearchSince.
  destruct err; [reflexivity|]. destruct (decide (length uids = 0)); [reflexivity|].
  rewrite seq_unfold. cbn [log fst snd]. rewrite Hh.
  now destruct (decide (imap_state s ≠ authenticated)).
Qed.

(** The callback of the search of the live watch on a live service. *)
Lemma unseen_run tza now err uids s :
  halted s = false ->
  step tza (now, SearchUnseenDone err uids) s =
    (s, match err with
        | Some e => [Console (LogError (tag s +:+ "Error searching for unseen emails:")
                                       (Js.message e))]
        | None =>
            if decide (length uids = 0) then []
            else [Cmd (Fetch uids (mkFetchOptions EmptyString (Some true)))]
        end).
Proof.
  intros Hh. unfold step. rewrite Hh. cbn [fst snd dispatch]. unfold onSearchUnseen.
  destruct err; [reflexivity|]. now destruct (decide (length uids = 0)).
Qed.

(** Once the process has died nothing happens any more. *)
Lemma halted_run tza evs s : halted s = true -> run_events tza evs s = (s, []).
Proof.
  intros Hh. induction evs as [|ev rest IH]; [reflexivity|].
  cbn [run_events]. unfold step at 1. rewrite Hh, IH. reflexivity.
Qed.

End SupervisorRuns.

Section SupervisorSummary.

Import ImapService Sup SupFacts Trace.

Local Opaque JsDate.isoDate JsDate.setDate JsDate.getDate.

Lemma connects_app e1 e2 : connects (e1 ++ e2) = connects e1 + connects e2.
Proof. unfold connects. now rewrite commands_app, List.filter_app, length_app. Qed.

Lemma openboxes_app e1 e2 : openboxes (e1 ++ e2) = openboxes e1 + openboxes e2.
Proof. unfold openboxes. now rewrite commands_app, List.filter_app, length_app. Qed.

Lemma closes_cons ev evs : closes (ev :: evs) = (if is_close ev then 1 else 0) + closes evs.
Proof. unfold closes. cbn [List.filter]. now destruct (is_close ev). Qed.

(** Repeating effects that connect, open or hand off nothing does none of it. *)
Lemma connects_repeated effs n :
  connects effs = 0 -> connects (concat (replicate n effs)) = 0.
Proof.
  intros He. induction n as [|n IH]; [reflexivity|].
  cbn [replicate concat]. now rewrite connects_app, He, IH.
Qed.

Lemma openboxes_repeated effs n :
  openboxes effs = 0 -> openboxes (concat (replicate n effs)) = 0.
Proof.
  intros He. induction n as [|n IH]; [reflexivity|].
  cbn [replicate concat]. now rewrite openboxes_app, He, IH.
Qed.

Lemma handoffs_repeated effs n :
  handoffs effs = [] -> handoffs (concat (replicate n effs)) = [].
Proof.
  intros He. induction n as [|n IH]; [reflexivity|].
  cbn [replicate concat]. now rewrite handoffs_app, He, IH.
Qed.

Lemma openboxes_ready n s : openboxes (concat (replicate n (ready_effects s))) = n.
Proof.
  induction n as [|n IH]; [reflexivity|].
  cbn [replicate concat]. rewrite openboxes_app, IH. reflexivity.
Qed.

(** What one event does to a live service with its one close listener:
    the fields it leaves alone, the timers it arms and disarms, and how
    many connects, mailbox openings and handoffs it causes. *)
Lemma step_summary tza ev s :
  halted s = false ->
  close_listeners s = 1 ->
  let r := step tza ev s in
  accountConfig r.1 = accountConfig s /\
  close_listeners r.1 = 1 /\
  handoffs r.2 = match ev.2 with
                 | Parsed _ None (Some m) => [(m, id (accountConfig s))]
                 | _ => []
                 end /\
  connects r.2 = match ev.2 with
                 | TimeoutFired timer => if armed timer (timeouts s) then 1 else 0
                 | _ => 0
                 end /\
  openboxes r.2 = match ev.2 with
                  | Ready => ready_once_listeners s
                  | _ => 0
                  end /\
  ready_once_listeners r.1 = match ev.2 with
                             | Ready => 0
                             | _ => ready_once_listeners s
                             end /\
  timeouts r.1 = match ev.2 with
                 | Close => (next_timer s, 10000%Z) :: timeouts s
                 | TimeoutFired timer =>
                     if armed timer (timeouts s)
                     then filter (fun p => p.1 ≠ timer) (timeouts s)
                     else timeouts s
                 | _ => timeouts s
                 end /\
  next_timer r.1 = match ev.2 with
                   | Close | OpenBoxDone None => S (next_timer s)
                   | _ => next_timer s
                   end /\
  intervals r.1 = match ev.2 with
                  | Close => intervals (clearKeepAlive s).1
                  | OpenBoxDone None => (next_timer s, 300000%Z) :: intervals (clearKeepAlive s).1
                  | _ => intervals s
                  end /\
  keepAliveInterval r.1 = match ev.2 with
                          | OpenBoxDone None => Some (next_timer s)
                          | _ => keepAliveInterval s
                          end /\
  halted r.1 = match ev.2 with
               | OpenBoxDone (Some _) => true
               | _ => false
               end.
Proof.
  intros Hh Hc r. subst r. destruct ev as [now ev]. cbn [snd].
  destruct ev as [| |e| |n|[e|]|err uids|err uids|phase err parsedMail|phase e|phase|timer|timer].
  - unfold step. rewrite Hh. destruct s; cbn in *. now repeat split.
  - rewrite ready_run by exact Hh. cbn [fst snd accountConfig close_listeners
      ready_once_listeners timeouts next_timer intervals keepAliveInterval halted].
    repeat split; try assumption.
    + now apply handoffs_repeated.
    + now apply connects_repeated.
    + apply openboxes_ready.
  - rewrite error_run by exact Hh. cbn [fst snd]. repeat split; try assumption.
    + now apply handoffs_repeated.
    + now apply connects_repeated.
    + now apply openboxes_repeated.
  - rewrite close_run by assumption. cbn. now repeat split.
  - rewrite mail_run by exact Hh. cbn [fst snd].
    assert (Hm : handoffs (mail_effects n s) = []
                 /\ connects (mail_effects n s) = 0
                 /\ openboxes (mail_effects n s) = 0).
    { unfold mail_effects. now destruct (decide (imap_state s ≠ authenticated)). }
    destruct Hm as (M1 & M2 & M3). repeat split; try assumption.
    + now apply handoffs_repeated.
    + now apply connects_repeated.
    + now apply openboxes_repeated.
  - rewrite openBox_failed_run by exact Hh. cbn. now repeat split.
  - rewrite onOpenBox_run by exact Hh. cbn. now repeat split.
  - rewrite since_run by exact Hh. cbn [fst snd]. repeat split; try assumption;
      destruct err; try reflexivity;
      destruct (decide (length uids = 0)); try reflexivity;
      destruct (decide (imap_state s ≠ authenticated)); reflexivity.
  - rewrite unseen_run by exact Hh. cbn [fst snd]. repeat split; try assumption;
      destruct err; try reflexivity;
      destruct (decide (length uids = 0)); reflexivity.
  - rewrite parsed_run by exact Hh. cbn [fst snd]. repeat split; try assumption;
      destruct err; try reflexivity; destruct parsedMail; reflexivity.
  - unfold step. rewrite Hh. cbn. now repeat split.
  - unfold step. rewrite Hh. cbn. now repeat split.
  - rewrite interval_run by exact Hh. cbn [fst snd]. repeat split; try assumption;
      destruct (armed timer (intervals s) && bool_decide (imap_state s = authenticated));
      reflexivity.
  - rewrite timeout_run by exact Hh.
    destruct (armed timer (timeouts s)); cbn; now repeat split.
Qed.

End SupervisorSummary.

Section SupervisorTraces.

Import ImapService Sup SupFacts Trace.

Local Opaque JsDate.isoDate JsDate.setDate JsDate.getDate.

Lemma run_events_cons tza ev rest s :
  run_events tza (ev :: rest) s =
    ((run_events tza rest (step tza ev s).1).1,
     ((step tza ev s).2 ++ (run_events tza rest (step tza ev s).1).2)%list).
Proof.
  cbn [run_events]. destruct (step tza ev s) as [s1 e1]. cbn [fst snd].
  now destruct (run_events tza rest s1).
Qed.

Lemma step_halted tza ev s : halted s = true -> step tza ev s = (s, []).
Proof. intros Hh. unfold step. now rewrite Hh. Qed.

(** Mailbox openings so far and ready listeners still attached add up to
    what was attached at the start. *)
Lemma openbox_budget tza evs s :
  close_listeners s = 1 ->
  openboxes (run_events tza evs s).2 + ready_once_listeners (run_events tza evs s).1
  = ready_once_listeners s.
Proof.
  revert s. induction evs as [|ev rest IH]; intros s Hc; [reflexivity|].
  destruct (halted s) eqn:Hh.
  { now rewrite halted_run. }
  rewrite run_events_cons. cbn [fst snd].
  destruct (step_summary tza ev s Hh Hc) as (_ & Hc1 & _ & _ & Ho & Hr & _).
  rewrite openboxes_app, <- Nat.add_assoc, (IH _ Hc1), Ho, Hr.
  destruct ev.2; lia.
Qed.

Lemma filter_remove_one (l : list (nat * Z)) timer :
  NoDup (map fst l) ->
  timer ∈ map fst l ->
  S (length (filter (fun p => p.1 ≠ timer) l)) = length l.
Proof.
  induction l as [|[k d] l IH]; intros Hnd Hin; [now apply elem_of_nil in Hin|].
  cbn [map fst] in Hnd, Hin. apply NoDup_cons in Hnd as [Hk Hnd].
  rewrite filter_cons. cbn [fst]. destruct (decide (k ≠ timer)) as [Hne|Heq].
  - cbn [length]. f_equal. apply IH; [exact Hnd|].
    apply elem_of_cons in Hin as [Hin|Hin]; [congruence | exact Hin].
  - assert (k = timer) by (destruct (decide (k = timer)); [assumption | contradiction]).
    subst k. cbn [length]. f_equal.
    clear IH Hin Hnd. induction l as [|[k d'] l IH]; [reflexivity|].
    cbn [map fst] in Hk. rewrite not_elem_of_cons in Hk. destruct Hk as [Hk1 Hk2].
    rewrite filter_cons. cbn [fst]. rewrite decide_True by congruence.
    cbn [length]. f_equal. now apply IH.
Qed.

Lemma filter_keeps_wf (l : list (nat * Z)) timer :
  NoDup (map fst l) -> NoDup (map fst (filter (fun p => p.1 ≠ timer) l)).
Proof.
  induction l as [|[k d] l IH]; intros Hnd; [constructor|].
  cbn [map fst] in Hnd. apply NoDup_cons in Hnd as [Hk Hnd].
  rewrite filter_cons. cbn [fst]. destruct (decide (k ≠ timer)); [|now apply IH].
  cbn [map fst]. apply NoDup_cons. split; [|now apply IH].
  intros Hin. apply Hk. apply list_elem_of_fmap in Hin as (p & Hp & Hin).
  apply list_elem_of_filter in Hin as [_ Hin]. apply list_elem_of_fmap. now exists p.
Qed.

Lemma timeouts_wf_step tza ev s :
  halted s = false ->
  close_listeners s = 1 ->
  timeouts_wf s ->
  timeouts_wf (step tza ev s).1.
Proof.
  intros Hh Hc [Hnd Hlt].
  destruct (step_summary tza ev s Hh Hc) as (_ & _ & _ & _ & _ & _ & Ht & Hn & _).
  unfold timeouts_wf. rewrite Ht, Hn.
  destruct ev.2 as [| |e| |n|[e|]|err uids|err uids|phase err parsedMail|phase e|phase|timer|timer];
    try (split; [exact Hnd | exact Hlt]).
  - split.
    + cbn [map fst]. apply NoDup_cons. split; [|exact Hnd].
      intros Hin. apply list_elem_of_fmap in Hin as (p & Hp & Hin).
      specialize (Hlt p Hin). lia.
    + intros p Hp. apply elem_of_cons in Hp as [->|Hp]; [cbn; lia|].
      specialize (Hlt p Hp). lia.
  - split; [exact Hnd|]. intros p Hp. specialize (Hlt p Hp). lia.
  - destruct (armed timer (timeouts s)); [|split; [exact Hnd | exact Hlt]].
    split; [now apply filter_keeps_wf|].
    intros p Hp. apply list_elem_of_filter in Hp as [_ Hp]. now apply Hlt.
Qed.

(** Connects sent and reconnect timers still armed add up to the timers
    armed at the start and the close events since. *)
Lemma reconnect_budget tza evs s :
  close_listeners s = 1 ->
  timeouts_wf s ->
  halted (run_events tza evs s).1 = false ->
  connects (run_events tza evs s).2 + length (timeouts (run_events tza evs s).1)
  = length (timeouts s) + closes evs.
Proof.
  revert s. induction evs as [|ev rest IH]; intros s Hc Hwf Hlive.
  { cbn. lia. }
  destruct (halted s) eqn:Hh.
  { rewrite halted_run in Hlive by exact Hh. cbn in Hlive. congruence. }
  rewrite run_events_cons in *. cbn [fst snd] in *.
  destruct (step_summary tza ev s Hh Hc) as (_ & Hc1 & _ & Hcon & _ & _ & Ht & _).
  pose proof (timeouts_wf_step tza ev s Hh Hc Hwf) as Hwf1.
  specialize (IH _ Hc1 Hwf1 Hlive).
  rewrite connects_app, closes_cons, Hcon.
  rewrite Ht in IH. unfold is_close. destruct Hwf as [Hnd _].
  destruct ev.2 as [| |e| |n|[e|]|err uids|err uids|phase err parsedMail|phase e|phase|timer|timer];
    cbn [length] in IH; try lia.
  unfold armed in *. case_bool_decide as Harmed; [|lia].
  pose proof (filter_remove_one (timeouts s) timer Hnd Harmed). lia.
Qed.

(** The account of a service never changes and every handoff carries it. *)
Lemma handoffs_account tza evs s :
  close_listeners s = 1 ->
  accountConfig (run_events tza evs s).1 = accountConfig s /\
  Forall (fun p => p.2 = id (accountConfig s)) (handoffs (run_events tza evs s).2).
Proof.
  revert s. induction evs as [|ev rest IH]; intros s Hc; [now split|].
  destruct (halted s) eqn:Hh.
  { rewrite halted_run by exact Hh. now split. }
  rewrite run_events_cons. cbn [fst snd].
  destruct (step_summary tza ev s Hh Hc) as (Ha & Hc1 & Hho & _).
  destruct (IH _ Hc1) as [Ha2 Hf2]. rewrite Ha in Ha2, Hf2.
  split; [exact Ha2|]. rewrite handoffs_app. apply Forall_app. split; [|exact Hf2].
  rewrite Hho. destruct ev.2; try constructor.
  destruct err; [constructor|]. destruct parsedMail; repeat constructor.
Qed.

(** At most one interval timer is armed, the keep-alive one. *)
Lemma one_interval tza evs s :
  Inv s ->
  (intervals s = [] \/ intervals s = [(default 0 (keepAliveInterval s), 300000%Z)]) ->
  let s' := (run_events tza evs s).1 in
  intervals s' = [] \/ intervals s' = [(default 0 (keepAliveInterval s'), 300000%Z)].
Proof.
  revert s. induction evs as [|ev rest IH]; intros s HI Hs; [exact Hs|].
  cbn zeta. rewrite run_events_cons. cbn [fst].
  apply IH; [now apply keeps_step|].
  destruct (halted s) eqn:Hh.
  { now rewrite step_halted. }
  destruct HI as [Hc Hwf].
  destruct (step_summary tza ev s Hh Hc) as (_ & _ & _ & _ & _ & _ & _ & _ & Hi & Hk & _).
  rewrite Hi, Hk. pose proof (cleared s Hwf) as Hnil.
  destruct ev.2 as [| |e| |n|[e|]|err uids|err uids|phase err parsedMail|phase e|phase|timer|timer];
    try exact Hs.
  - now left.
  - right. now rewrite Hnil.
Qed.

End SupervisorTraces.

Section SupervisorMore.

Import ImapService Sup SupFacts Trace.

Local Opaque JsDate.isoDate JsDate.setDate JsDate.getDate.

(** X8. The callback of the backfill search fetches only when the search
    did not fail, found at least one id and the connection is authenticated;
    then it fetches exactly the ids found. In every case the service is left
    as it was, and an empty result is reported as information, not as an
    error. *)
Theorem backfill_fetch_condition tza now err uids s :
  halted s = false ->
  let r := step tza (now, SearchSinceDone err uids) s in
  r.1 = s /\
  commands r.2 = match err, uids with
                 | None, _ :: _ =>
                     if decide (imap_state s = authenticated)
                     then [Fetch uids (mkFetchOptions EmptyString None)] else []
                 | _, _ => []
                 end /\
  (err = None -> uids = [] ->
     r.2 = [Console (Log (tag s +:+ "No new emails in the last 30 days."))]).
Proof.
  intros Hh r. subst r. rewrite since_run by exact Hh. cbn [fst snd].
  split; [reflexivity|]. split.
  - destruct err; [reflexivity|]. destruct uids as [|u uids]; [reflexivity|].
    rewrite decide_False by discriminate.
    destruct (decide (imap_state s = authenticated)) as [Ha|Ha].
    + rewrite decide_False by (intros Hn; now apply Hn). reflexivity.
    + now rewrite decide_True.
  - intros -> ->. reflexivity.
Qed.

(** X9. The callback of the search of the live watch fetches, with
    markSeen, exactly the ids found whenever the search did not fail and
    found any, without looking at the connection state; an empty result
    leaves no trace at all and a failed search is only logged. *)
Theorem live_fetch_condition tza now err uids s :
  halted s = false ->
  let r := step tza (now, SearchUnseenDone err uids) s in
  r.1 = s /\
  commands r.2 = match err, uids with
                 | None, _ :: _ => [Fetch uids (mkFetchOptions EmptyString (Some true))]
                 | _, _ => []
                 end /\
  (err = None -> uids = [] -> r.2 = []) /\
  (forall e, err = Some e ->
     errors r.2 = [(tag s +:+ "Error searching for unseen emails:", Js.message e)]).
Proof.
  intros Hh r. subst r. rewrite unseen_run by exact Hh. cbn [fst snd].
  split; [reflexivity|]. split; [|split].
  - destruct err; [reflexivity|]. destruct uids; [reflexivity|].
    now rewrite decide_False by discriminate.
  - intros -> ->. reflexivity.
  - intros e ->. reflexivity.
Qed.

(** X10. A new-mail event searches for unseen messages once for each
    attached mail listener when the connection is authenticated, sends
    nothing when it is not, and never changes the service. *)
Theorem mail_event_searches tza now n s :
  halted s = false ->
  let r := step tza (now, Mail n) s in
  r.1 = s /\
  commands r.2 = if decide (imap_state s = authenticated)
                 then replicate (mail_listeners s) (Search [UNSEEN]) else [].
Proof.
  intros Hh r. subst r. rewrite mail_run by exact Hh. cbn [fst snd].
  split; [reflexivity|].
  induction (mail_listeners s) as [|k IH].
  - now destruct (decide (imap_state s = authenticated)).
  - cbn [replicate concat]. rewrite commands_app, IH. unfold mail_effects.
    destruct (decide (imap_state s = authenticated)) as [Ha|Ha].
    + rewrite decide_False by (intros Hn; now apply Hn). reflexivity.
    + now rewrite decide_True.
Qed.

(** X11. A service opens its mailbox at most once in its life: over any
    sequence of events after [startSync], the openings sent and the ready
    listener still attached add up to one, and once the listener is used up
    a later ready event, as after a reconnect, causes nothing. *)
Theorem inbox_opened_at_most_once tza config evs :
  let r := boot tza config evs in
  openboxes r.2 + ready_once_listeners r.1 = 1 /\
  openboxes r.2 <= 1 /\
  (halted r.1 = false -> ready_once_listeners r.1 = 0 ->
     forall now, (step tza (now, Ready) r.1).2 = []).
Proof.
  intros r.
  pose proof (openbox_budget tza evs (startSync (new config)).1 eq_refl) as H.
  fold (boot tza config evs) in H. fold r in H.
  change (ready_once_listeners (startSync (new config)).1) with 1 in H.
  split; [exact H|]. split; [lia|].
  intros Hh Hr now. rewrite ready_run by exact Hh. cbn [snd]. now rewrite Hr.
Qed.

(** X12. Reconnects are neither lost nor doubled: over any sequence of
    events after [startSync] that the process survives, the connects sent by
    reconnect timers and the reconnect timers still armed add up to the
    number of close events. *)
Theorem reconnects_match_closes tza config evs :
  halted (boot tza config evs).1 = false ->
  connects (boot tza config evs).2 + length (timeouts (boot tza config evs).1) = closes evs.
Proof.
  intros Hh. unfold boot in *.
  assert (Hwf : timeouts_wf (startSync (new config)).1).
  { split; [constructor|]. intros p Hp. now apply elem_of_nil in Hp. }
  pose proof (reconnect_budget tza evs (startSync (new config)).1 eq_refl Hwf Hh) as H.
  exact H.
Qed.

(** X13. On a close event the service sends nothing at once and arms one
    timer of 10000 ms; when that timer fires the service connects exactly
    once and the timer is spent: firing again does nothing. *)
Theorem close_reconnects_once tza config pre now1 now2 now3 :
  let s := (boot tza config pre).1 in
  halted s = false ->
  let closed := step tza (now1, Close) s in
  let fired := step tza (now2, TimeoutFired (next_timer s)) closed.1 in
  commands closed.2 = [] /\
  timeouts closed.1 = (next_timer s, 10000%Z) :: timeouts s /\
  commands fired.2 = [Connect] /\
  armed (next_timer s) (timeouts fired.1) = false /\
  step tza (now3, TimeoutFired (next_timer s)) fired.1 = (fired.1, []).
Proof.
  intros s Hh closed fired.
  destruct (Inv_boot tza config pre) as [Hc _]. fold s in Hc.
  assert (Hclosed : closed = step tza (now1, Close) s) by reflexivity.
  rewrite close_run in Hclosed by assumption.
  assert (Harmed : armed (next_timer s) (timeouts closed.1) = true).
  { rewrite Hclosed. cbn [fst timeouts]. unfold armed. apply bool_decide_eq_true_2.
    cbn [map fst]. apply elem_of_cons. now left. }
  assert (Hfired : fired = step tza (now2, TimeoutFired (next_timer s)) closed.1) by reflexivity.
  rewrite timeout_run, Harmed in Hfired by (now rewrite Hclosed).
  assert (Hspent : armed (next_timer s) (timeouts fired.1) = false).
  { rewrite Hfired. cbn [fst timeouts]. unfold armed. apply bool_decide_eq_false_2.
    intros Hin. apply list_elem_of_fmap in Hin as (p & Hp & Hin).
    apply list_elem_of_filter in Hin as [Hne _]. congruence. }
  split; [now rewrite Hclosed|]. split; [now rewrite Hclosed|].
  split; [now rewrite Hfired|]. split; [exact Hspent|].
  rewrite timeout_run by (now rewrite Hfired). now rewrite Hspent.
Qed.

(** X14. A failure to open the inbox is thrown out of the callback and
    ends the process: nothing is logged or sent, no reconnect timer is
    armed, and no later event has any effect. *)
Theorem openBox_failure_is_fatal tza now e evs s :
  halted s = false ->
  let r := step tza (now, OpenBoxDone (Some e)) s in
  r.2 = [Uncaught e] /\
  timeouts r.1 = timeouts s /\
  run_events tza evs r.1 = (r.1, []).
Proof.
  intros Hh r. subst r. rewrite openBox_failed_run by exact Hh. cbn [fst snd timeouts].
  split; [reflexivity|]. split; [reflexivity|]. now apply halted_run.
Qed.

(** X15. Every message a service hands off is handed off under the
    identifier of the account the service was created for, whatever events
    arrive, and the service keeps that account. *)
Theorem handoffs_carry_own_account tza config evs :
  accountConfig (boot tza config evs).1 = config /\
  Forall (fun p => p.2 = id config) (handoffs (boot tza config evs).2).
Proof.
  exact (handoffs_account tza evs (startSync (new config)).1 eq_refl).
Qed.

(** X16. However often the inbox is opened and the connection closed, a
    service has at most one interval timer armed; it is the keep-alive
    timer the service remembers and its period is 300000 ms. *)
Theorem one_keep_alive_timer tza config evs :
  let s := (boot tza config evs).1 in
  length (intervals s) <= 1 /\
  (forall p, p ∈ intervals s -> keepAliveInterval s = Some p.1 /\ p.2 = 300000%Z).
Proof.
  intros s.
  assert (HI : Inv (startSync (new config)).1).
  { split; [reflexivity|]. intros p Hp. now apply elem_of_nil in Hp. }
  pose proof (one_interval tza evs (startSync (new config)).1 HI (or_introl eq_refl)) as H.
  cbv zeta in H. fold (boot tza config evs) in H. fold s in H.
  destruct (Inv_boot tza config evs) as [_ Hwf]. fold s in Hwf.
  destruct H as [H|H]; rewrite H.
  - split; [cbn; lia|]. intros p Hp. now apply elem_of_nil in Hp.
  - split; [cbn; lia|]. intros p Hp. apply list_elem_of_singleton in Hp. subst p.
    split; [|reflexivity]. apply (Hwf (default 0 (keepAliveInterval s), 300000%Z)).
    rewrite H. now apply list_elem_of_singleton.
Qed.

(** X17. An error event of the connection is only logged, once for each
    error listener: the service is left as it was, nothing is sent and no
    reconnect is scheduled. *)
Theorem error_event_only_logs tza now e s :
  halted s = false ->
  let r := step tza (now, Error e) s in
  r.1 = s /\
  commands r.2 = [] /\
  errors r.2 = replicate (error_listeners s) (tag s +:+ "IMAP Error:", Js.message e).
Proof.
  intros Hh r. subst r. rewrite error_run by exact Hh. cbn [fst snd].
  split; [reflexivity|].
  induction (error_listeners s) as [|k [IH1 IH2]]; [now split|].
  cbn [replicate concat]. rewrite commands_app, errors_app, IH1, IH2. now split.
Qed.

End SupervisorMore.

Lemma backfill_fetch_condition_witness :
  ImapService.commands
    (ImapService.step JsDate.utc (1793577600600%Z, ImapService.SearchSinceDone None [7%N; 8%N])
       Sample.watching).2
  = [ImapService.Fetch [7%N; 8%N] (ImapService.mkFetchOptions EmptyString None)].
Proof.
  pose proof (backfill_fetch_condition JsDate.utc 1793577600600 None [7%N; 8%N] Sample.watching eq_refl) as H.
  cbv zeta in H. destruct H as (_ & H & _). exact H.
Defined.

(** The unseen search answers after the connection has closed: the fetch
    is sent all the same. *)
Lemma live_fetch_condition_witness :
  let closed := (ImapService.step JsDate.utc (1793577900000%Z, ImapService.Close) Sample.watching).1 in
  ImapService.imap_state closed = ImapService.disconnected /\
  ImapService.commands
    (ImapService.step JsDate.utc (1793577900100%Z, ImapService.SearchUnseenDone None [7%N]) closed).2
  = [ImapService.Fetch [7%N] (ImapService.mkFetchOptions EmptyString (Some true))].
Proof.
  intros closed.
  pose proof (live_fetch_condition JsDate.utc 1793577900100 None [7%N] closed eq_refl) as H.
  cbv zeta in H. destruct H as (_ & H & _). split; [reflexivity | exact H].
Defined.

Lemma mail_event_searches_witness :
  ImapService.commands
    (ImapService.step JsDate.utc (1793577600700%Z, ImapService.Mail 2) Sample.watching).2
  = [ImapService.Search [ImapService.UNSEEN]].
Proof.
  pose proof (mail_event_searches JsDate.utc 1793577600700 2 Sample.watching eq_refl) as H.
  cbv zeta in H. destruct H as (_ & H). exact H.
Defined.

(** Two closes, the first reconnect timer fired: one connect sent, one
    timer still armed. *)
Lemma reconnects_match_closes_witness :
  let evs := [(1793577600000%Z, ImapService.Ready);
              (1793577600500%Z, ImapService.OpenBoxDone None);
              (1793577900000%Z, ImapService.Close);
              (1793577910000%Z, ImapService.TimeoutFired 1);
              (1793578900000%Z, ImapService.Close)] in
  Trace.connects (Sup.boot JsDate.utc Sample.account evs).2
  + length (ImapService.timeouts (Sup.boot JsDate.utc Sample.account evs).1) = 2.
Proof.
  intros evs. exact (reconnects_match_closes JsDate.utc Sample.account evs eq_refl).
Defined.

Lemma close_reconnects_once_witness :
  let closed := ImapService.step JsDate.utc (1793577900000%Z, ImapService.Close) Sample.watching in
  ImapService.timeouts closed.1 = [(1, 10000%Z)] /\
  ImapService.commands
    (ImapService.step JsDate.utc (1793577910000%Z, ImapService.TimeoutFired 1) closed.1).2
  = [ImapService.Connect].
Proof.
  pose proof (close_reconnects_once JsDate.utc Sample.account
                [(1793577600000%Z, ImapService.Ready);
                 (1793577600500%Z, ImapService.OpenBoxDone None)]
                1793577900000 1793577910000 1793577920000 eq_refl) as H.
  cbv zeta in H. destruct H as (_ & H2 & H3 & _). split; [exact H2 | exact H3].
Defined.

Lemma openBox_failure_is_fatal_witness :
  let ready := (Sup.boot JsDate.utc Sample.account [(1793577600000%Z, ImapService.Ready)]).1 in
  let dead := (ImapService.step JsDate.utc (1793577600500%Z,
                 ImapService.OpenBoxDone (Some (Js.mkError "Mailbox does not exist"))) ready).1 in
  (ImapService.run_events JsDate.utc [(1793577900000%Z, ImapService.Close);
                             (1793577910000%Z, ImapService.TimeoutFired 0)] dead).2 = [].
Proof.
  intros ready dead.
  pose proof (openBox_failure_is_fatal JsDate.utc 1793577600500 (Js.mkError "Mailbox does not exist")
                [(1793577900000%Z, ImapService.Close);
                 (1793577910000%Z, ImapService.TimeoutFired 0)] ready eq_refl) as H.
  cbv zeta in H. destruct H as (_ & _ & H). fold dead in H. now rewrite H.
Defined.

Lemma error_event_only_logs_witness :
  (ImapService.step JsDate.utc (1793577600800%Z, ImapService.Error (Js.mkError "ECONNRESET"))
     Sample.watching).1 = Sample.watching.
Proof.
  pose proof (error_event_only_logs JsDate.utc 1793577600800 (Js.mkError "ECONNRESET")
                Sample.watching eq_refl) as H.
  cbv zeta in H. destruct H as (H & _). exact H.
Defined.

(* ===================================================================== *)
(* Further properties of startup                                          *)
(* ===================================================================== *)

Section StartupMore.

Import App.

Lemma startAll_started items :
  exits (startAll items).1 = false /\ listens (startAll items).1 = false.
Proof.
  induction items as [|[c|] items IH]; cbn [startAll]; [now split| |now split].
  destruct (ImapService.startSync (ImapService.new c)) as [service effects].
  destruct (startAll items) as [more thrown]. exact IH.
Qed.

Lemma startAll_prefix accounts :
  startAll (map Some accounts) =
    (map (fun c => Started (ImapService.startSync (ImapService.new c)).1
                           (ImapService.startSync (ImapService.new c)).2) accounts, None).
Proof.
  induction accounts as [|c accounts IH]; [reflexivity|].
  cbn [map startAll]. now rewrite IH.
Qed.

Lemma startAll_null accounts rest :
  startAll (map Some accounts ++ None :: rest) =
    (map (fun c => Started (ImapService.startSync (ImapService.new c)).1
                           (ImapService.startSync (ImapService.new c)).2) accounts,
     Some TypeError).
Proof.
  induction accounts as [|c accounts IH]; [reflexivity|].
  cbn [map app startAll]. now rewrite IH.
Qed.

Lemma services_started accounts :
  services (map (fun c => Started (ImapService.startSync (ImapService.new c)).1
                                  (ImapService.startSync (ImapService.new c)).2) accounts)
  = map (fun c => (ImapService.startSync (ImapService.new c)).1) accounts.
Proof. induction accounts as [|c accounts IH]; [reflexivity|]. cbn. now f_equal. Qed.

Lemma startAccounts_quiet w :
  exits (startAccounts w) = false /\ listens (startAccounts w) = false.
Proof.
  unfold startAccounts. destruct (IMAP_ACCOUNTS w) as [cfg|]; [|now split].
  destruct (Js.truthy cfg); [|now split].
  destruct (JSON_parse w cfg) as [[|len|items]|e]; try now split.
  destruct (startAll_started items) as [He Hl].
  destruct (startAll items) as [started thrown]. cbn [fst] in *.
  cbn [exits listens existsb found]. fold (exits (started ++ match thrown with
                                                             | Some error => [parseFailed error]
                                                             | None => []
                                                             end)).
  fold (listens (started ++ match thrown with
                            | Some error => [parseFailed error]
                            | None => []
                            end)).
  rewrite exits_app, listens_app, He, Hl. now destruct thrown.
Qed.

(** How [initialize] ends: done, with nothing fatal behind it, or with
    the process ended. *)
Lemma initialize_cases w :
  ((initialize w).2 = Done /\ exits (initialize w).1 = false
   /\ listens (initialize w).1 = false /\ services (initialize w).1 = [])
  \/
  ((initialize w).2 = Exited /\ exits (initialize w).1 = true
   /\ listens (initialize w).1 = false /\ services (initialize w).1 = []).
Proof.
  unfold initialize. destruct (es_ping w); [right; now repeat split|].
  destruct (es_indices_exists w) as [[|]|]; [left; now repeat split| |right; now repeat split].
  destruct (es_indices_create w); [right | left]; now repeat split.
Qed.

(** The way [startApp] ends follows the way [initialize] ends. *)
Lemma startApp_ends w :
  exits (startApp w) = negb (listens (startApp w)) /\
  (listens (startApp w) = true <-> (initialize w).2 = Done) /\
  (exits (startApp w) = true -> services (startApp w) = []).
Proof.
  unfold startApp.
  destruct (initialize_cases w) as [(Ho & He & Hl & Hs)|(Ho & He & Hl & Hs)];
    destruct (initialize w) as [effects outcome]; cbn [fst snd] in *; subst outcome.
  - destruct (startAccounts_quiet w) as [Ae Al].
    rewrite !exits_app, !listens_app, He, Hl, Ae, Al. cbn.
    split; [reflexivity|]. split; [now split | discriminate].
  - rewrite He, Hl. cbn. split; [reflexivity|]. split; [split; discriminate | now intros _].
Qed.

(** [initialize] finishes exactly when the store answers the ping and the
    index is there or could be created. *)
Lemma initialize_done_iff w :
  (initialize w).2 = Done <->
  es_ping w = None /\
  (es_indices_exists w = Return true \/
   (es_indices_exists w = Return false /\ es_indices_create w = None)).
Proof.
  unfold initialize. destruct (es_ping w) as [e|].
  { cbn. split; [discriminate | now intros [? _]]. }
  destruct (es_indices_exists w) as [[|]|e].
  - cbn. split; [intros _; split; [reflexivity | now left] | reflexivity].
  - destruct (es_indices_create w) as [e|]; cbn.
    + split; [discriminate|]. intros [_ [H|[_ H]]]; discriminate.
    + split; [intros _; split; [reflexivity | now right] | reflexivity].
  - cbn. split; [discriminate|]. intros [_ [H|[H _]]]; discriminate.
Qed.

(** X18. Startup ends in exactly one of two ways: the process exits, or
    the API server is started. The server is started if and only if the
    store answers the ping and the index exists or is created, whatever the
    accounts variable holds; when the process exits no account service has
    been started. *)
Theorem startup_exits_or_listens w :
  exits (startApp w) = negb (listens (startApp w)) /\
  (listens (startApp w) = true <->
   es_ping w = None /\
   (es_indices_exists w = Return true \/
    (es_indices_exists w = Return false /\ es_indices_create w = None))) /\
  (exits (startApp w) = true -> services (startApp w) = []).
Proof.
  destruct (startApp_ends w) as (Hx & Hl & Hs).
  split; [exact Hx|]. split; [|exact Hs].
  rewrite <- initialize_done_iff. exact Hl.
Qed.

(** X19. When the store initialized and the accounts variable parses to
    an array of account objects, one service is started for each account,
    in the order of the array, each with its own account and each having
    asked for its connection; no parse failure is logged. *)
Theorem one_service_per_account w effects imapAccountsConfig accounts :
  initialize w = (effects, Done) ->
  IMAP_ACCOUNTS w = Some imapAccountsConfig ->
  Js.truthy imapAccountsConfig = true ->
  JSON_parse w imapAccountsConfig = Return (JArray (map Some accounts)) ->
  services (startApp w) = map (fun c => (ImapService.startSync (ImapService.new c)).1) accounts /\
  map ImapService.accountConfig (services (startApp w)) = accounts /\
  Forall (fun e => match e with
                   | Started _ effs => ImapService.commands effs = [ImapService.Connect]
                   | AppConsole (LogError _ _) => False
                   | _ => True
                   end) (startAccounts w) /\
  listens (startApp w) = true.
Proof.
  intros Hi Ha Ht Hp. destruct (initialize_done w effects Hi) as (He & Hl & Hs).
  assert (Hacc : startAccounts w =
            found (pretty (length (map Some accounts)))
            :: map (fun c => Started (ImapService.startSync (ImapService.new c)).1
                                     (ImapService.startSync (ImapService.new c)).2) accounts).
  { unfold startAccounts. rewrite Ha, Ht, Hp, startAll_prefix. now rewrite app_nil_r. }
  assert (Hsv : services (startApp w)
                = map (fun c => (ImapService.startSync (ImapService.new c)).1) accounts).
  { unfold startApp. rewrite Hi, !services_app, Hs, Hacc. cbn [app].
    change (services (found ?n :: ?l)) with (services l).
    rewrite services_started. cbn. now rewrite app_nil_r. }
  split; [exact Hsv|]. split; [|split].
  - rewrite Hsv, map_map. cbn. apply map_id.
  - rewrite Hacc. constructor; [exact I|].
    apply List.Forall_forall. intros e Hin. apply in_map_iff in Hin.
    destruct Hin as (c & <- & _). reflexivity.
  - unfold startApp. rewrite Hi, !listens_app. cbn. now rewrite !orb_true_r.
Qed.

(** X20. A null item in the accounts array stops the start of the
    accounts after it but not of those before it: exactly the accounts
    before the null item are started, the failure is logged as a parse
    failure, and the API server is started all the same. *)
Theorem null_item_stops_later_accounts w effects imapAccountsConfig accounts rest :
  initialize w = (effects, Done) ->
  IMAP_ACCOUNTS w = Some imapAccountsConfig ->
  Js.truthy imapAccountsConfig = true ->
  JSON_parse w imapAccountsConfig = Return (JArray (map Some accounts ++ None :: rest)) ->
  services (startApp w) = map (fun c => (ImapService.startSync (ImapService.new c)).1) accounts /\
  parseFailed TypeError ∈ startApp w /\
  listens (startApp w) = true /\
  exits (startApp w) = false.
Proof.
  intros Hi Ha Ht Hp. destruct (initialize_done w effects Hi) as (He & Hl & Hs).
  assert (Hacc : startAccounts w =
            (found (pretty (length (map Some accounts ++ None :: rest)))
             :: map (fun c => Started (ImapService.startSync (ImapService.new c)).1
                                      (ImapService.startSync (ImapService.new c)).2) accounts
             ++ [parseFailed TypeError])%list).
  { unfold startAccounts. now rewrite Ha, Ht, Hp, startAll_null. }
  pose proof (startApp_ends w) as (Hx & Hiff & _).
  assert (Hlis : listens (startApp w) = true) by (apply Hiff; now rewrite Hi).
  split; [|split; [|split]].
  - unfold startApp. rewrite Hi, !services_app, Hs, Hacc. cbn [app].
    change (services (found ?n :: ?l)) with (services l).
    rewrite services_app, services_started. cbn. now rewrite !app_nil_r.
  - unfold startApp. rewrite Hi, Hacc. apply elem_of_app. right. apply elem_of_app. left.
    apply elem_of_cons. right. apply elem_of_app. right. apply elem_of_cons. now left.
  - exact Hlis.
  - now rewrite Hx, Hlis.
Qed.

(** X21. No account service is started unless the store initialized, the
    accounts variable is set and not empty, and it parsed to an array that
    begins with an account object. *)
Theorem services_need_parsed_array w :
  services (startApp w) <> [] ->
  (initialize w).2 = Done /\
  exists imapAccountsConfig first others,
    IMAP_ACCOUNTS w = Some imapAccountsConfig /\
    Js.truthy imapAccountsConfig = true /\
    JSON_parse w imapAccountsConfig = Return (JArray (Some first :: others)).
Proof.
  intros Hne.
  destruct (initialize_cases w) as [(Ho & He & Hl & Hs)|(Ho & He & Hl & Hs)].
  2:{ exfalso. apply Hne. unfold startApp.
      destruct (initialize w) as [effects outcome]. cbn [fst snd] in *. now subst outcome. }
  split; [exact Ho|].
  unfold startApp in Hne. destruct (initialize w) as [effects outcome]. cbn [fst snd] in *.
  subst outcome. rewrite !services_app, Hs in Hne. cbn in Hne. rewrite app_nil_r in Hne.
  unfold startAccounts in Hne.
  destruct (IMAP_ACCOUNTS w) as [cfg|]; [|now contradiction Hne].
  destruct (Js.truthy cfg) eqn:Ht; [|now contradiction Hne].
  destruct (JSON_parse w cfg) as [[|len|items]|e] eqn:Hp; try now contradiction Hne.
  destruct items as [|[first|] others]; try now contradiction Hne.
  now exists cfg, first, others.
Qed.

End StartupMore.

(* ===================================================================== *)
(* Properties of the API routes                                           *)
(* ===================================================================== *)

Section Routes.

Import Api.

(** What [getReplySuggestion] returns and does, by the outcome of its request. *)
Lemma getReplySuggestion_run env emailBody category :
  getReplySuggestion env emailBody category =
    match settle (ai_reply env) 20000 with
    | Return data =>
        (Return (Js.or_else (reply_of data) "Error: Could not generate suggestion."),
         [AiSuggestReply emailBody category 20000])
    | Throw error =>
        (Return "Error: AI service unreachable.",
         [AiSuggestReply emailBody category 20000;
          Logged (LogError "[AI Service] Reply generation failed:" (Js.message error))])
    end.
Proof.
  unfold getReplySuggestion, attempt, andThen, await, done, emit.
  now destruct (settle (ai_reply env) 20000).
Qed.

Lemma or_else_cases x d :
  Js.or_else x d = if Js.truthy_opt x then Js.show x else d.
Proof. destruct x as [s0|]; [|reflexivity]. cbn. now destruct (Js.truthy s0). Qed.


(** X23. The search of GET /api/emails matches everything exactly when
    neither parameter is given (or both are empty); otherwise it requires
    one clause for each parameter given and no other: the text over
    subject, body and from, and the account as an exact term. *)
Theorem query_filters q accountId :
  match buildQuery q accountId with
  | MatchAll => Js.truthy_opt q = false /\ Js.truthy_opt accountId = false
  | BoolMust must =>
      (Js.truthy_opt q = true \/ Js.truthy_opt accountId = true) /\
      (forall x fields,
         MultiMatch x fields ∈ must <->
         q = Some x /\ Js.truthy x = true /\ fields = ["subject"; "body"; "from"]) /\
      (forall field value,
         Term field value ∈ must <->
         accountId = Some value /\ Js.truthy value = true /\ field = "accountId.keyword")
  end.
Proof.
  unfold buildQuery.
  destruct q as [x|], accountId as [a|]; cbn [Js.truthy_opt Js.show];
    try destruct (Js.truthy x) eqn:Hx; try destruct (Js.truthy a) eqn:Ha; cbn;
    try (split; reflexivity);
    (split; [auto|]); split; intros; split;
    try (intros H; repeat (apply elem_of_cons in H as [H|H]);
         try (now apply elem_of_nil in H); try discriminate H;
         injection H as ? ?; subst; now auto);
    intros (H1 & H2 & H3); try discriminate H1; injection H1 as ?; subst;
    try congruence; repeat constructor.
Qed.

(** X24. GET /api/emails never rejects and answers exactly once, after
    exactly one search of the emails index for at most 100 documents, newest
    first: with status 200 and one element for each hit, in the order of the
    hits and under the hit's id, or with status 500 and the error's message
    when the search fails. The search and the answer (and, on failure, one
    error line before the answer) are all the route does. *)
Theorem getEmails_responds_once env q accountId :
  let r := getEmails env q accountId in
  let search := EsSearch "emails" (buildQuery q accountId) 100 [("receivedAt", "desc")] in
  r.1 = Return tt /\
  length (responses r.2) = 1 /\
  head r.2 = Some search /\
  (forall hits, es_search env = Return hits ->
     r.2 = [search;
            Responded 200 (JsonEmails (map (fun hit => mkApiEmail (_id hit) (_source hit)) hits))]
     /\
     exists emails,
       responses r.2 = [(200, JsonEmails emails)] /\
       map id emails = map _id hits /\
       map source emails = map _source hits) /\
  (forall e, es_search env = Throw e ->
     r.2 = [search;
            Logged (LogError "[API /api/emails] Error fetching emails:" (Js.message e));
            Responded 500 (JsonError (Js.message e))]
     /\
     responses r.2 = [(500, JsonError (Js.message e))]).
Proof.
  intros r search. subst r search. unfold getEmails, attempt, andThen, await, emit.
  destruct (es_search env) as [hits|e]; cbn.
  - split; [reflexivity|]. split; [reflexivity|]. split; [reflexivity|]. split; [|discriminate].
    intros h [= <-]. split; [reflexivity|].
    eexists. split; [reflexivity|]. rewrite !map_map. now split.
  - split; [reflexivity|]. split; [reflexivity|]. split; [reflexivity|]. split; [discriminate|].
    now intros e' [= <-].
Qed.

(** What the suggest-reply route does, by the outcome of its two requests. *)
Lemma suggestReply_run env id :
  suggestReply env id =
    match es_get env with
    | Throw e =>
        (Return tt, [EsGet "emails" id;
                     Logged (LogError "[API /suggest-reply] Error:" (Js.message e));
                     Responded 500 (JsonError (Js.message e))])
    | Return None =>
        (Return tt, [EsGet "emails" id; Responded 404 (JsonError "Email not found")])
    | Return (Some source) =>
        let request := AiSuggestReply (Js.or_else (body source) EmptyString)
                                      (aiCategory source) 20000 in
        match settle (ai_reply env) 20000 with
        | Return data =>
            (Return tt,
             [EsGet "emails" id; request;
              Responded 200 (JsonSuggestion
                               (Js.or_else (reply_of data)
                                           "Error: Could not generate suggestion."))])
        | Throw error =>
            (Return tt,
             [EsGet "emails" id; request;
              Logged (LogError "[AI Service] Reply generation failed:" (Js.message error));
              Responded 200 (JsonSuggestion "Error: AI service unreachable.")])
        end
    end.
Proof.
  unfold suggestReply. destruct (es_get env) as [[source|]|e]; [|reflexivity|reflexivity].
  unfold andThen at 1, await. rewrite getReplySuggestion_run.
  now destruct (settle (ai_reply env) 20000).
Qed.

(** X25. POST /api/emails/:id/suggest-reply never rejects and answers
    exactly once. The AI service is asked only when the email was found,
    and then once, with the email's text and category; its failure still
    gives status 200 with a text that is not empty. An email without source
    gives 404 and a failed lookup 500, neither asking the AI service. *)
Theorem suggestReply_outcomes env id :
  let r := suggestReply env id in
  r.1 = Return tt /\
  length (responses r.2) = 1 /\
  head r.2 = Some (EsGet "emails" id) /\
  (forall e, es_get env = Throw e ->
     responses r.2 = [(500, JsonError (Js.message e))] /\ ai_requests r.2 = []) /\
  (es_get env = Return None ->
     responses r.2 = [(404, JsonError "Email not found")] /\ ai_requests r.2 = []) /\
  (forall source, es_get env = Return (Some source) ->
     exists text,
       responses r.2 = [(200, JsonSuggestion text)] /\
       Js.truthy text = true /\
       ai_requests r.2 = [AiSuggestReply (Js.or_else (body source) EmptyString)
                                         (aiCategory source) 20000]).
Proof.
  intros r. subst r. rewrite suggestReply_run.
  destruct (es_get env) as [[source|]|e].
  - cbv zeta. destruct (settle (ai_reply env) 20000) as [data|err]; cbn;
      (split; [reflexivity|]); (split; [reflexivity|]); (split; [reflexivity|]);
      (split; [discriminate|]); (split; [discriminate|]);
      intros src [= <-]; eexists; (split; [reflexivity|]); split; try reflexivity.
    now apply or_else_truthy.
  - cbn. split; [reflexivity|]. split; [reflexivity|]. split; [reflexivity|].
    split; [discriminate|]. split; [now split | discriminate].
  - cbn. split; [reflexivity|]. split; [reflexivity|]. split; [reflexivity|].
    split; [|split; discriminate]. now intros e' [= <-].
Qed.

End Routes.

(* ===================================================================== *)
(* Properties of the frontend                                             *)
(* ===================================================================== *)

Section Frontend.

Import Ui.

Lemma set_from_spec xs : forall seen,
  NoDup seen ->
  NoDup (set_from seen xs) /\
  forall a, a ∈ set_from seen xs <-> a ∈ seen \/ a ∈ xs.
Proof.
  induction xs as [|x xs IH]; intros seen Hnd; cbn [set_from].
  - split; [exact Hnd|]. intros a. rewrite elem_of_nil. tauto.
  - case_bool_decide as Hx.
    + destruct (IH seen Hnd) as [N M]. split; [exact N|].
      intros a. rewrite M, elem_of_cons. split; [tauto|].
      intros [H|[->|H]]; tauto.
    + assert (Hnd' : NoDup (seen ++ [x])).
      { apply NoDup_app. split; [exact Hnd|]. split; [|apply NoDup_singleton].
        intros y Hy Hin. apply list_elem_of_singleton in Hin. now subst. }
      destruct (IH _ Hnd') as [N M]. split; [exact N|].
      intros a. rewrite M, elem_of_app, list_elem_of_singleton, elem_of_cons. tauto.
Qed.

(** X26. The account filter lists every account that occurs among the
    emails shown, and each of them once. *)
Theorem accountIds_unique emails :
  NoDup (accountIds emails) /\
  forall a, a ∈ accountIds emails <-> exists e, e ∈ emails /\ accountId e = a.
Proof.
  unfold accountIds.
  destruct (set_from_spec (map accountId emails) [] (NoDup_nil_2)) as [N M].
  split; [exact N|]. intros a. rewrite M, elem_of_nil.
  change (map accountId emails) with (accountId <$> emails). rewrite list_elem_of_fmap.
  split.
  - intros [[]|(e & -> & He)]. now exists e.
  - intros (e & He & <-). right. now exists e.
Qed.

Lemma replace_spaces_clean s : forall in_run,
  Forall (fun c => is_space c = false) (String.list_ascii_of_string (replace_spaces in_run s)).
Proof.
  induction s as [|c s IH]; intros in_run; cbn [replace_spaces]; [constructor|].
  destruct (is_space c) eqn:Hc.
  - destruct in_run; [apply IH|]. cbn [String.list_ascii_of_string]. constructor; [reflexivity | apply IH].
  - cbn [String.list_ascii_of_string]. constructor; [exact Hc | apply IH].
Qed.

Lemma replace_spaces_same s : forall in_run,
  Forall (fun c => is_space c = false) (String.list_ascii_of_string s) ->
  replace_spaces in_run s = s.
Proof.
  induction s as [|c s IH]; intros in_run Hs; [reflexivity|].
  cbn [String.list_ascii_of_string] in Hs. apply Forall_cons in Hs as [Hc Hs].
  cbn [replace_spaces]. rewrite Hc. f_equal. now apply IH.
Qed.

Lemma or_else_empty x : Js.or_else (Some x) EmptyString = x.
Proof. now destruct x. Qed.

(** A run of white space after white space leaves nothing. *)
Lemma replace_spaces_run gap rest :
  Forall (fun c => is_space c = true) (String.list_ascii_of_string gap) ->
  replace_spaces true (gap +:+ rest) = replace_spaces true rest.
Proof.
  induction gap as [|c gap IH]; intros Hrun; [reflexivity|].
  cbn [String.list_ascii_of_string] in Hrun. apply Forall_cons in Hrun as [Hc Hrun].
  simpl. rewrite Hc. now apply IH.
Qed.

(** A run of white space after anything else leaves one dash. *)
Lemma replace_spaces_run_dash gap rest :
  gap <> EmptyString ->
  Forall (fun c => is_space c = true) (String.list_ascii_of_string gap) ->
  replace_spaces false (gap +:+ rest) = String dash (replace_spaces true rest).
Proof.
  destruct gap as [|c gap]; intros Hne Hrun; [contradiction|].
  cbn [String.list_ascii_of_string] in Hrun. apply Forall_cons in Hrun as [Hc Hrun].
  simpl. rewrite Hc. f_equal. now apply replace_spaces_run.
Qed.

(** What does not begin with white space is replaced alike after a gap
    and after anything else. *)
Lemma replace_spaces_start post :
  (post = EmptyString \/ exists c r, post = String c r /\ is_space c = false) ->
  replace_spaces true post = replace_spaces false post.
Proof.
  intros [->|(c & r & -> & Hc)]; [reflexivity|]. simpl. now rewrite Hc.
Qed.

(** What ends in something else than white space is replaced on its own. *)
Lemma replace_spaces_end p c rest : forall in_run,
  is_space c = false ->
  replace_spaces in_run ((p +:+ String c EmptyString) +:+ rest)
  = replace_spaces in_run (p +:+ String c EmptyString) +:+ replace_spaces false rest.
Proof.
  induction p as [|d p IH]; intros in_run Hc.
  - simpl. now rewrite Hc.
  - simpl. destruct (is_space d); [destruct in_run|]; rewrite IH by exact Hc; reflexivity.
Qed.

Lemma replace_spaces_word w rest :
  Forall (fun c => is_space c = false) (String.list_ascii_of_string w) ->
  replace_spaces false (w +:+ rest) = w +:+ replace_spaces false rest.
Proof.
  induction w as [|c w IH]; intros Hw; [reflexivity|].
  cbn [String.list_ascii_of_string] in Hw. apply Forall_cons in Hw as [Hc Hw].
  simpl. rewrite Hc. rewrite IH by exact Hw. reflexivity.
Qed.

(** X27. The class name made from a category never holds white space, so
    it is one class token: every maximal run of white space in the category
    becomes exactly one dash and everything else is kept. A category without
    white space is its own class name, and a missing category gives the
    empty class name. *)
Theorem categoryClass_no_space email :
  Forall (fun c => is_space c = false) (String.list_ascii_of_string (categoryClass email)) /\
  (forall c, aiCategory email = Some c ->
     Forall (fun ch => is_space ch = false) (String.list_ascii_of_string c) ->
     categoryClass email = c) /\
  (aiCategory email = None -> categoryClass email = EmptyString) /\
  (forall pre gap post,
     aiCategory email = Some (pre +:+ gap +:+ post) ->
     (pre = EmptyString \/ exists p c, pre = p +:+ String c EmptyString /\ is_space c = false) ->
     gap <> EmptyString ->
     Forall (fun c => is_space c = true) (String.list_ascii_of_string gap) ->
     (post = EmptyString \/ exists c r, post = String c r /\ is_space c = false) ->
     categoryClass email
     = replace_spaces false pre +:+ String dash (replace_spaces false post)) /\
  (forall word gap next,
     aiCategory email = Some (word +:+ gap +:+ next) ->
     Forall (fun c => is_space c = false) (String.list_ascii_of_string word) ->
     gap <> EmptyString ->
     Forall (fun c => is_space c = true) (String.list_ascii_of_string gap) ->
     Forall (fun c => is_space c = false) (String.list_ascii_of_string next) ->
     categoryClass email = word +:+ String dash next).
Proof.
  unfold categoryClass. destruct (aiCategory email) as [c|]; cbn [fmap option_fmap option_map].
  - rewrite or_else_empty. split; [apply replace_spaces_clean|]. split; [|split; [|split]].
    + intros c' [= <-] Hc. now apply replace_spaces_same.
    + discriminate.
    + intros pre gap post [= ->] Hpre Hne Hrun Hpost.
      destruct Hpre as [->|(p & d & -> & Hd)].
      * change (replace_spaces false (gap +:+ post)
                = String dash (replace_spaces false post)).
        rewrite replace_spaces_run_dash by assumption.
        now rewrite replace_spaces_start.
      * rewrite replace_spaces_end by exact Hd.
        rewrite (replace_spaces_run_dash gap post) by assumption.
        now rewrite replace_spaces_start.
    + intros word gap next [= ->] Hword Hne Hrun Hnext.
      rewrite replace_spaces_word by exact Hword.
      rewrite (replace_spaces_run_dash gap next) by assumption. f_equal. f_equal.
      rewrite replace_spaces_start.
      * now apply replace_spaces_same.
      * destruct next as [|d r]; [now left|]. right. exists d, r. split; [reflexivity|].
        cbn [String.list_ascii_of_string] in Hnext. now apply Forall_cons in Hnext as [Hd _].
  - cbn. split; [constructor|]. split; [discriminate|]. split; [reflexivity|].
    split; discriminate.
Qed.

Example category_classes :
  replace_spaces false "Meeting Booked" = "Meeting-Booked" /\
  replace_spaces false "Out of Office" = "Out-of-Office" /\
  replace_spaces false "Not  Interested " = "Not-Interested-".
Proof. now repeat split. Qed.

Lemma substring_short n s : String.length (String.substring 0 n s) <= n.
Proof.
  revert s. induction n as [|n IH]; intros s; destruct s as [|c s]; cbn; try lia.
  specialize (IH s). lia.
Qed.

Lemma substring_prefix n s : String.prefix (String.substring 0 n s) s = true.
Proof.
  revert s. induction n as [|n IH]; intros s; destruct s as [|c s]; cbn; try reflexivity.
  destruct (Ascii.ascii_dec c c); [apply IH | contradiction].
Qed.

Lemma substring_whole n s : String.length s <= n -> String.substring 0 n s = s.
Proof.
  revert s. induction n as [|n IH]; intros s Hs; destruct s as [|c s]; cbn in *;
    try reflexivity; try lia.
  f_equal. apply IH. lia.
Qed.

Lemma app_length_string a b : String.length (a +:+ b) = String.length a + String.length b.
Proof. induction a as [|c a IH]; [reflexivity|]. simpl. f_equal. exact IH. Qed.

(** X28. The snippet of a list item is at most 103 code units long: a
    prefix of the body of at most 100 code units, followed by three dots.
    A body of up to 100 code units is shown whole and a missing body
    leaves the dots alone. *)
Theorem snippet_bounded email :
  String.length (snippet email) <= 103 /\
  (exists shown,
     snippet email = shown +:+ "..." /\
     String.prefix shown (default EmptyString (body email)) = true) /\
  (forall b, body email = Some b -> String.length b <= 100 -> snippet email = b +:+ "...") /\
  (body email = None -> snippet email = "...").
Proof.
  unfold snippet. destruct (body email) as [b|]; cbn [fmap option_fmap option_map default].
  - rewrite or_else_empty. split; [|split; [|split]].
    + rewrite app_length_string. pose proof (substring_short 100 b) as Hb.
      change (String.length "...") with 3. lia.
    + eexists. split; [reflexivity | apply substring_prefix].
    + intros b' [= <-] Hb. now rewrite substring_whole.
    + discriminate.
  - split; [change (3 <= 103); lia|]. split; [|split; [discriminate | reflexivity]].
    now exists EmptyString.
Qed.

(** X29. Whatever the suggest-reply route answers, or if the request
    fails on the way, the reply handler of the email view first switches
    loading on, then empties the suggestion, then sets the text, and ends
    with loading switched off; loading is on in every state in between.
    The text shown is never empty and it is fixed by the outcome: when the
    route found the email it answered 200 and the text is the answer of the
    AI service, or the AI client's text for an answer without a reply, or
    its text for a service that failed or was late; when the email was not
    found (404), the store failed (500) or the request got no answer, it is
    the handler's own error text. *)
Theorem suggestion_always_settles email env route_id answer st :
  answer = None \/ answer = head (Api.responses (Api.suggestReply env route_id).2) ->
  exists s1 s2 s3 final text,
    handleSuggestReply (Some email) answer st = [st; s1; s2; s3; final] /\
    isLoadingSuggestion s1 = true /\
    isLoadingSuggestion s2 = true /\
    isLoadingSuggestion s3 = true /\
    isLoadingSuggestion final = false /\
    suggestion final = Some text /\
    Js.truthy text = true /\
    suggestion s1 = suggestion st /\
    suggestion s2 = Some EmptyString /\
    suggestion s3 = Some text /\
    (answer = None -> text = "Error: Could not get suggestion.") /\
    (answer = head (Api.responses (Api.suggestReply env route_id).2) ->
     match Api.es_get env with
     | Return (Some source) =>
         match Api.settle (Api.ai_reply env) 20000 with
         | Return data =>
             answer = Some (200, Api.JsonSuggestion text) /\
             text = (if Js.truthy_opt (Api.reply_of data) then Js.show (Api.reply_of data)
                     else "Error: Could not generate suggestion.")
         | Throw _ =>
             answer = Some (200, Api.JsonSuggestion text) /\
             text = "Error: AI service unreachable."
         end
     | Return None =>
         answer = Some (404, Api.JsonError "Email not found") /\
         text = "Error: Could not get suggestion."
     | Throw e =>
         answer = Some (500, Api.JsonError (Js.message e)) /\
         text = "Error: Could not get suggestion."
     end).
Proof.
  intros Hanswer. unfold handleSuggestReply.
  assert (Hsome : head (Api.responses (Api.suggestReply env route_id).2) <> None).
  { rewrite suggestReply_run. destruct (Api.es_get env) as [[source|]|e]; [|discriminate..].
    cbv zeta. now destruct (Api.settle (Api.ai_reply env) 20000). }
  destruct Hanswer as [->| ->].
  - do 4 eexists. exists "Error: Could not get suggestion.".
    cbn [suggestion_of isLoadingSuggestion suggestion].
    repeat (split; [reflexivity|]).
    intros Hnone. now destruct Hsome.
  - clear Hsome. rewrite suggestReply_run.
    destruct (Api.es_get env) as [[source|]|e].
    + cbv zeta. destruct (Api.settle (Api.ai_reply env) 20000) as [data|err].
      * do 4 eexists.
        exists (Js.or_else (Api.reply_of data) "Error: Could not generate suggestion.").
        cbn. repeat split; try reflexivity; try (intros; discriminate).
        -- now apply or_else_truthy.
        -- apply or_else_cases.
      * do 4 eexists. exists "Error: AI service unreachable.".
        cbn. repeat split; try reflexivity; intros; discriminate.
    + do 4 eexists. exists "Error: Could not get suggestion.".
      cbn. repeat split; try reflexivity; intros; discriminate.
    + do 4 eexists. exists "Error: Could not get suggestion.".
      cbn. repeat split; try reflexivity; intros; discriminate.
Qed.

(** What holds of the search timers after any actions: none is armed, or
    the one the last effect armed, holding the current values. *)
Lemma debounce_invariant actions : forall s,
  (timers s = [] \/
   exists t, timers s = [(t, (500%Z, (searchQuery s, activeAccountId s)))] /\ searchTimeout s = Some t) ->
  let s' := (acts actions s).1 in
  timers s' = [] \/
  exists t, timers s' = [(t, (500%Z, (searchQuery s', activeAccountId s')))] /\ searchTimeout s' = Some t.
Proof.
  induction actions as [|a actions IH]; intros s Hs; [exact Hs|].
  cbn [acts]. destruct (act a s) as [s1 f1] eqn:Hact.
  specialize (IH s1). destruct (acts actions s1) as [s2 f2]. cbn [fst] in *.
  apply IH. clear IH.
  assert (Hclean : timers (cleanup s) = []).
  { unfold cleanup. destruct Hs as [Hs|(t & Ht & Hst)].
    - destruct (searchTimeout s); [|exact Hs]. cbn. now rewrite Hs.
    - rewrite Hst. cbn. rewrite Ht. cbn. rewrite decide_False by (intros Hn; now apply Hn).
      reflexivity. }
  destruct a as [query|accountId|timer]; cbn [act] in Hact.
  - destruct (decide (query = searchQuery s)); injection Hact as <- _; [exact Hs|].
    right. eexists. cbn. rewrite Hclean. split; reflexivity.
  - destruct (decide (accountId = activeAccountId s)); injection Hact as <- _; [exact Hs|].
    right. eexists. cbn. rewrite Hclean. split; reflexivity.
  - destruct Hs as [Hs|(t & Ht & Hst)].
    + rewrite Hs in Hact. cbn in Hact. injection Hact as <- _. now left.
    + rewrite Ht in Hact. cbn in Hact. destruct (Nat.eqb_spec t timer) as [->|Hne].
      * injection Hact as <- _. left. cbn.
        rewrite decide_False by (intros Hn; now apply Hn). reflexivity.
      * injection Hact as <- _. right. exists t. now split.
Qed.

(** X30. The search effect keeps at most one timer armed, the last one it
    set, of 500 ms, and that timer holds the current search text and account. So
    changing the text or the account sends nothing by itself, a timer that
    fires sends at most one request, always with the current values, and
    the first request after the page loads asks for everything. *)
Theorem debounce_fetches_current actions :
  let s := (acts actions mount).1 in
  length (timers s) <= 1 /\
  (forall p, p ∈ timers s -> p.2.1 = 500%Z) /\
  (forall t,
     (act (TimerFired t) s).2 = [] \/
     ((act (TimerFired t) s).2 = [mkFetch (searchQuery s) (activeAccountId s)] /\
      timers (act (TimerFired t) s).1 = [])) /\
  (forall query, (act (SetSearchQuery query) s).2 = []) /\
  (forall accountId, (act (SetActiveAccountId accountId) s).2 = []) /\
  (act (TimerFired 0) mount).2 = [mkFetch EmptyString None] /\
  route_query (mkFetch EmptyString None) = Api.MatchAll.
Proof.
  intros s.
  assert (Hm : timers mount = [] \/
               exists t, timers mount = [(t, (500%Z, (searchQuery mount, activeAccountId mount)))]
                         /\ searchTimeout mount = Some t).
  { right. now exists 0. }
  pose proof (debounce_invariant actions mount Hm) as Hs. cbv zeta in Hs. fold s in Hs.
  split; [|split; [|split; [|split; [|split; [|split]]]]]; try reflexivity.
  - destruct Hs as [->|(t & -> & _)]; cbn; lia.
  - intros p Hp. destruct Hs as [Hs|(t & Ht & _)]; rewrite ?Hs, ?Ht in Hp.
    + now apply elem_of_nil in Hp.
    + apply list_elem_of_singleton in Hp. now subst p.
  - intros t. cbn [act]. destruct Hs as [Hs|(t0 & Ht & _)].
    + rewrite Hs. now left.
    + rewrite Ht. cbn. destruct (Nat.eqb_spec t0 t) as [->|Hne]; [|now left].
      right. split; [reflexivity|]. cbn.
      rewrite decide_False by (intros Hn; now apply Hn). reflexivity.
  - intros query. cbn [act]. now destruct (decide (query = searchQuery s)).
  - intros accountId. cbn [act]. now destruct (decide (accountId = activeAccountId s)).
Qed.

End Frontend.

Lemma one_service_per_account_witness :
  let second := ImapService.mkAccount "acct2" in
  let w := App.mkWorld (Some "[{...}, {...}]") None
             (fun _ => Return (App.JArray [Some Sample.account; Some second]))
             None (Return true) None in
  map ImapService.accountConfig (App.services (App.startApp w)) = [Sample.account; second].
Proof.
  intros second w.
  pose proof (one_service_per_account w _ "[{...}, {...}]" [Sample.account; second]
                eq_refl eq_refl eq_refl eq_refl) as H.
  destruct H as (_ & H & _). exact H.
Defined.

Lemma null_item_stops_later_accounts_witness :
  let second := ImapService.mkAccount "acct2" in
  let w := App.mkWorld (Some "[{...}, null, {...}]") None
             (fun _ => Return (App.JArray [Some Sample.account; None; Some second]))
             None (Return true) None in
  map ImapService.accountConfig (App.services (App.startApp w)) = [Sample.account] /\
  App.listens (App.startApp w) = true.
Proof.
  intros second w.
  pose proof (null_item_stops_later_accounts w _ "[{...}, null, {...}]" [Sample.account]
                [Some second] eq_refl eq_refl eq_refl eq_refl) as H.
  destruct H as (H1 & _ & H3 & _). split; [now rewrite H1 | exact H3].
Defined.

Lemma services_need_parsed_array_witness :
  let w := App.mkWorld (Some "[{...}]") None
             (fun _ => Return (App.JArray [Some Sample.account]))
             None (Return true) None in
  (App.initialize w).2 = App.Done.
Proof.
  intros w.
  assert (H : App.services (App.startApp w) <> []) by (vm_compute; discriminate).
  exact (proj1 (services_need_parsed_array w H)).
Defined.

(** The email is found, the AI service is down: the view ends up showing
    the AI client's error text, loading switched off. *)
Lemma suggestion_always_settles_witness :
  let env := Api.mkEnv (Return [])
               (Return (Some (document_in (Sample.answering "Interested") Sample.mail "acct1")))
               (Fails (Js.mkError "ECONNREFUSED")) in
  let shown := Ui.mkEmail "<m1@example.test>" "acct1" None None (Some "Pricing")
                 (Some "Tell me more.") None "2023-11-14T22:13:20.000Z" (Some "Interested") in
  last (Ui.handleSuggestReply (Some shown)
          (head (Api.responses (Api.suggestReply env "<m1@example.test>").2))
          (Ui.mkViewState (Some EmptyString) false))
  = Some (Ui.mkViewState (Some "Error: AI service unreachable.") false).
Proof.
  intros env shown.
  destruct (suggestion_always_settles shown env "<m1@example.test>"
              (head (Api.responses (Api.suggestReply env "<m1@example.test>").2))
              (Ui.mkViewState (Some EmptyString) false) (or_intror eq_refl))
    as (s1 & s2 & s3 & final & text & Hrun & _).
  rewrite Hrun. cbn [last]. vm_compute in Hrun. now injection Hrun as _ _ _ <-.
Defined.
